(** * Authentication core of the marketplace backend

    A shallow embedding of the credential hasher (utils/password), the
    authentication service (services/auth-service), the user service
    (services/user-service) over the [User] table of the migration, and the
    two authentication routes (routes/auth), followed by the properties
    established about them.

    JavaScript strings are sequences of UTF-16 code units, typed arrays are
    lists of bytes, a promise that rejects (or a statement that throws) is an
    abrupt completion, and every call that leaves the JavaScript heap (the
    database, the random source, the clock, WebCrypto, the JWT signer) is an
    explicit effect of the program, interpreted against a world. *)

From Stdlib Require Import Strings.String Strings.Ascii Strings.Byte.
From Stdlib Require Import List Bool Arith NArith ZArith Lia.
Import ListNotations.

Set Implicit Arguments.

(* ===================================================================== *)
(** * Part I: the embedding *)
(* ===================================================================== *)

(** ** JavaScript values used by the code *)

(** A string is its sequence of UTF-16 code units. *)
Definition jsstring := list N.

(** A string literal of the source (ASCII only). *)
Definition lit (s : string) : jsstring :=
  map N_of_ascii (list_ascii_of_string s).

(** [a === b] on strings. *)
Fixpoint str_eqb (a b : jsstring) : bool :=
  match a, b with
  | [], [] => true
  | x :: a', y :: b' => N.eqb x y && str_eqb a' b'
  | _, _ => false
  end.

(** The classes of the exceptions the code can meet.  All of them are
    subclasses of [Error], so [e instanceof Error] holds of each. *)
Inductive ErrorClass :=
| PlainError                                      (* new Error(message) *)
| ZodError (issues : list jsstring)               (* paths of the failing fields *)
| HTTPException (status : Z)
| InvalidCharacterError                           (* DOMException of atob / btoa *)
| RangeError
| PrismaClientKnownRequestError (code : string).

Record Exn := mkExn { exn_class : ErrorClass; exn_message : jsstring }.

(** Completion of an evaluation: a value, or an exception in flight. *)
Inductive completion (A : Type) :=
| Normal (a : A)
| Abrupt (e : Exn).
Arguments Normal {A} a.
Arguments Abrupt {A} e.

(** ** Base64 as [btoa] and [atob] implement it *)

Module Base64.
Open Scope N_scope.

(** The 64 characters, by index. *)
Definition alphabet (s : N) : N :=
  if s <? 26 then 65 + s
  else if s <? 52 then 97 + (s - 26)
  else if s <? 62 then 48 + (s - 52)
  else if s =? 62 then 43
  else 47.

Definition pad : N := 61.

(** The index of a character of the alphabet. *)
Definition sextet_of (c : N) : option N :=
  if (65 <=? c) && (c <=? 90) then Some (c - 65)
  else if (97 <=? c) && (c <=? 122) then Some (c - 97 + 26)
  else if (48 <=? c) && (c <=? 57) then Some (c - 48 + 52)
  else if c =? 43 then Some 62
  else if c =? 47 then Some 63
  else None.

(** Three bytes give four sextets; a tail of one or two bytes gives two or
    three, the missing low bits being zero. *)
Fixpoint to_sextets (l : list N) : list N :=
  match l with
  | a :: b :: c :: r =>
      a / 4 :: (a mod 4) * 16 + b / 16 :: (b mod 16) * 4 + c / 64 :: c mod 64
        :: to_sextets r
  | [a; b] => [a / 4; (a mod 4) * 16 + b / 16; (b mod 16) * 4]
  | [a] => [a / 4; (a mod 4) * 16]
  | [] => []
  end.

Definition padding (n : nat) : nat :=
  match (n mod 3)%nat with
  | 1%nat => 2%nat
  | 2%nat => 1%nat
  | _ => 0%nat
  end.

Definition encode (l : list N) : jsstring :=
  map alphabet (to_sextets l) ++ repeat pad (padding (length l)).

Definition is_ascii_whitespace (c : N) : bool :=
  (c =? 9) || (c =? 10) || (c =? 12) || (c =? 13) || (c =? 32).

Definition ends_with_pad (data : jsstring) : bool := last data 0 =? pad.

(** When the length is a multiple of four, one or two trailing [=] are
    removed. *)
Definition strip_padding (data : jsstring) : jsstring :=
  if (length data mod 4 =? 0)%nat then
    if ends_with_pad data then
      let data1 := removelast data in
      if ends_with_pad data1 then removelast data1 else data1
    else data
  else data.

Fixpoint sextets_of (data : jsstring) : option (list N) :=
  match data with
  | [] => Some []
  | c :: r =>
      match sextet_of c, sextets_of r with
      | Some s, Some ss => Some (s :: ss)
      | _, _ => None
      end
  end.

(** Four sextets give three bytes; a tail of three or two sextets gives two
    or one byte, the surplus low bits being dropped. *)
Fixpoint of_sextets (l : list N) : list N :=
  match l with
  | a :: b :: c :: d :: r =>
      a * 4 + b / 16 :: (b mod 16) * 16 + c / 4 :: (c mod 4) * 64 + d
        :: of_sextets r
  | [a; b; c] => [a * 4 + b / 16; (b mod 16) * 16 + c / 4]
  | [a; b] => [a * 4 + b / 16]
  | _ => []
  end.

(** The forgiving decoder: whitespace is dropped, padding is optional, a
    length of 1 modulo 4 and any foreign character are failures. *)
Definition decode (data : jsstring) : option (list N) :=
  let data := filter (fun c => negb (is_ascii_whitespace c)) data in
  let data := strip_padding data in
  if (length data mod 4 =? 1)%nat then None
  else option_map of_sextets (sextets_of data).
End Base64.

Definition invalid_character : Exn :=
  mkExn InvalidCharacterError (lit "Invalid character").

(** [btoa(s)]: throws when [s] has a code unit above U+00FF. *)
Definition btoa (s : jsstring) : completion jsstring :=
  if forallb (fun c => N.leb c 255) s then Normal (Base64.encode s)
  else Abrupt invalid_character.

(** [atob(s)]: the result is a string of code units below 256. *)
Definition atob (s : jsstring) : completion jsstring :=
  match Base64.decode s with
  | Some bytes => Normal bytes
  | None => Abrupt invalid_character
  end.

(** ** Typed arrays and strings *)

Definition Uint8Array := list byte.

(** Conversion of a number to an element of a [Uint8Array]. *)
Definition ToUint8 (n : N) : byte :=
  match Byte.of_N (n mod 256) with
  | Some b => b
  | None => x00
  end.

(** [new Uint8Array(n)] *)
Definition new_Uint8Array (n : nat) : Uint8Array := repeat x00 n.

(** [target.set(source, offset)]: a [RangeError] when the source does not fit. *)
Definition Uint8Array_set (target source : Uint8Array) (offset : nat)
  : completion Uint8Array :=
  if (offset + length source <=? length target)%nat then
    Normal (firstn offset target ++ source
              ++ skipn (offset + length source) target)
  else Abrupt (mkExn RangeError (lit "offset is out of bounds")).

(** [a.slice(b, e)] and [a.slice(b)] for non-negative indices. *)
Definition slice (a : Uint8Array) (b e : nat) : Uint8Array :=
  firstn (e - b) (skipn b a).

Definition slice_from (a : Uint8Array) (b : nat) : Uint8Array := skipn b a.

(** [a.every(callback)]: the elements are visited in index order and the
    visit stops at the first one the callback rejects.  The second component
    counts the calls of the callback. *)
Fixpoint every_run (A : Type) (callback : A -> nat -> bool) (a : list A)
  (k : nat) : bool * nat :=
  match a with
  | [] => (true, 0%nat)
  | value :: rest =>
      if callback value k then
        let (result, calls) := every_run callback rest (S k) in
        (result, S calls)
      else (false, 1%nat)
  end.

(** [String.fromCharCode(...bytes)] *)
Definition String_fromCharCode (codes : Uint8Array) : jsstring :=
  map Byte.to_N codes.

Definition is_lead_surrogate (c : N) : bool := (N.leb 55296 c) && (N.leb c 56319).
Definition is_trail_surrogate (c : N) : bool := (N.leb 56320 c) && (N.leb c 57343).

(** The string iterator yields code points: a surrogate pair is one item. *)
Fixpoint code_points (s : jsstring) : list jsstring :=
  match s with
  | [] => []
  | c :: r =>
      match r with
      | d :: r' =>
          if is_lead_surrogate c && is_trail_surrogate d
          then [c; d] :: code_points r'
          else [c] :: code_points r
      | [] => [[c]]
      end
  end.

(** [c.charCodeAt(0)]; [NaN] on the empty string, which [ToUint8] sends to 0. *)
Definition charCodeAt0 (c : jsstring) : N := hd 0%N c.

(** [Uint8Array.from(s, mapFn)] on a string [s]. *)
Definition Uint8Array_from (s : jsstring) (mapFn : jsstring -> N) : Uint8Array :=
  map (fun c => ToUint8 (mapFn c)) (code_points s).

(** [a || ''] for [a : string | null]. *)
Definition or_empty (a : option jsstring) : jsstring :=
  match a with
  | Some (c :: r) => c :: r
  | _ => []
  end.

(** ** Records of the source *)

(** A row of the [User] table (migration 0001): [name] is nullable. *)
Module User.
Record t := mk {
  id : Z;
  email : jsstring;
  name : option jsstring;
  password_hash : jsstring;
  role : jsstring;
  profile_completed : bool;
  created_at : Z;
  updated_at : Z
}.
End User.

(** The [data] argument of [prisma.user.create]. *)
Module UserCreateArgs.
Record t := mk {
  email : jsstring;
  password_hash : jsstring;
  name : jsstring;
  role : jsstring;
  profile_completed : bool;
  created_at : Z;
  updated_at : Z
}.
End UserCreateArgs.

Module CreateUserInput.
Record t := mk {
  email : jsstring;
  passwordHash : jsstring;
  name : jsstring;
  role : jsstring;
  profileCompleted : option bool
}.
End CreateUserInput.

Module JWTPayload.
Record t := mk {
  userId : Z;
  email : jsstring;
  name : jsstring;
  role : jsstring;
  iat : option Z;
  exp : option Z
}.
End JWTPayload.

Module SignupInput.
Record t := mk {
  email : jsstring;
  password : jsstring;
  name : jsstring;
  role : jsstring
}.
End SignupInput.

Module LoginInput.
Record t := mk {
  email : jsstring;
  password : jsstring
}.
End LoginInput.

Module UserView.
Record t := mk {
  id : Z;
  email : jsstring;
  name : jsstring;
  role : jsstring;
  profileCompleted : bool
}.
End UserView.

Module AuthResponse.
Record t := mk {
  accessToken : jsstring;
  expiresIn : Z;
  user : UserView.t
}.
End AuthResponse.

(** A [CryptoKey] imported from raw key material. *)
Record CryptoKey := mkCryptoKey { key_material : list byte }.

(** ** The platform *)

(** Pure functions of the runtime and of the libraries the code calls:
    the UTF-8 encoder, PBKDF2 with SHA-256 (key material, salt, iterations,
    number of bits), zod's e-mail test and the signer of hono/jwt. *)
Class Platform := {
  TextEncoder_encode : jsstring -> list byte;
  pbkdf2_sha256 : list byte -> list byte -> N -> nat -> list byte;
  isEmail : jsstring -> bool;
  jwt_sign : JWTPayload.t -> jsstring -> jsstring
}.

(** ** Effects and programs *)

(** The calls that leave the JavaScript heap. *)
Inductive Eff : Type -> Type :=
| UserFindUnique (email : jsstring) : Eff (option User.t)
| UserCreate (data : UserCreateArgs.t) : Eff (completion User.t)
| GetRandomValues (n : nat) : Eff Uint8Array
| ImportKey (material : list byte) : Eff CryptoKey
| DeriveBits (salt : list byte) (iterations : N) (key : CryptoKey) (bits : nat)
    : Eff (list byte)
| DateNow : Eff Z
| JwtSign (payload : JWTPayload.t) (secret : jsstring) : Eff jsstring.

(** An asynchronous function body: it returns, throws, or performs a call and
    continues with its answer. *)
Inductive Prog (A : Type) : Type :=
| Ret (a : A)
| Throw (e : Exn)
| Do (X : Type) (op : Eff X) (k : X -> Prog A).
Arguments Ret {A} a.
Arguments Throw {A} e.

Fixpoint bind (A B : Type) (p : Prog A) (f : A -> Prog B) : Prog B :=
  match p with
  | Ret a => f a
  | Throw e => Throw e
  | Do op k => Do op (fun x => bind (k x) f)
  end.

Notation "x <- p ;; q" := (bind p (fun x => q))
  (at level 61, p at next level, right associativity).

(** [try { p } catch (e) { handler e }] *)
Fixpoint try_catch (A : Type) (p : Prog A) (handler : Exn -> Prog A) : Prog A :=
  match p with
  | Ret a => Ret a
  | Throw e => handler e
  | Do op k => Do op (fun x => try_catch (k x) handler)
  end.

Definition perform (X : Type) (op : Eff X) : Prog X := Do op (fun x => Ret x).

Definition lift (A : Type) (c : completion A) : Prog A :=
  match c with
  | Normal a => Ret a
  | Abrupt e => Throw e
  end.

(** ** The world the effects act on *)

(** The [User] table with its unique index on [email] and its
    [AUTOINCREMENT] counter. *)
Record Table := mkTable { rows : list User.t; sequence : Z }.

Inductive Call := Called (X : Type) (op : Eff X).

(** The table, the random source with the number of bytes drawn so far, the
    clock with the number of readings so far, and the journal of the calls
    made. *)
Record World := mkWorld {
  table : Table;
  entropy : nat -> byte;
  drawn : nat;
  clock : nat -> Z;
  ticks : nat;
  journal : list Call
}.

Definition with_table (f : Table -> Table) (w : World) : World :=
  mkWorld (f (table w)) (entropy w) (drawn w) (clock w) (ticks w) (journal w).

Definition record_call (c : Call) (w : World) : World :=
  mkWorld (table w) (entropy w) (drawn w) (clock w) (ticks w) (journal w ++ [c]).

(** [SELECT ... WHERE email = ?]: text is compared unit by unit (the column
    has the default collation). *)
Definition find_unique (email : jsstring) (t : Table) : option User.t :=
  find (fun u => str_eqb (User.email u) email) (rows t).

(** The error of Prisma for a violated unique index. *)
Definition unique_violation : Exn :=
  mkExn (PrismaClientKnownRequestError "P2002")
        (lit "Unique constraint failed on the fields: (`email`)").

(** [INSERT INTO "User"]: refused when the e-mail is already indexed. *)
Definition user_create (data : UserCreateArgs.t) (t : Table)
  : completion User.t * Table :=
  if existsb (fun u => str_eqb (User.email u) (UserCreateArgs.email data)) (rows t)
  then (Abrupt unique_violation, t)
  else
    let u := User.mk (sequence t + 1)
               (UserCreateArgs.email data)
               (Some (UserCreateArgs.name data))
               (UserCreateArgs.password_hash data)
               (UserCreateArgs.role data)
               (UserCreateArgs.profile_completed data)
               (UserCreateArgs.created_at data)
               (UserCreateArgs.updated_at data) in
    (Normal u, mkTable (rows t ++ [u]) (sequence t + 1)).


Definition is_database_call (X : Type) (op : Eff X) : bool :=
  match op with
  | UserFindUnique _ | UserCreate _ => true
  | _ => false
  end.

Definition SALT_LENGTH : nat := 16.
Definition ITERATIONS : N := 100000.
Definition HASH_LENGTH : nat := 32.

(** Lines 139-142 of [comparePassword]: the length test and the [every]
    over the stored key, with the number of callback calls. *)
Definition compare_keys (hash newHashArray : Uint8Array) : bool * nat :=
  if negb (length hash =? length newHashArray)%nat then (false, 0%nat)
  else
    every_run
      (fun value index =>
         match nth_error newHashArray index with
         | Some other => Byte.eqb value other
         | None => false
         end)
      hash 0.

(** The number of leading positions at which two arrays agree: the index of
    their first difference, or the length of the shorter when there is none. *)
Fixpoint common_prefix (a b : Uint8Array) : nat :=
  match a, b with
  | x :: a', y :: b' => if Byte.eqb x y then S (common_prefix a' b') else 0%nat
  | _, _ => 0%nat
  end.

(** A stored hash that decodes to a salt followed by a key of the fixed
    lengths. *)
Definition well_formed_hash (storedHash : jsstring) : bool :=
  match atob storedHash with
  | Normal decoded =>
      (length (Uint8Array_from decoded charCodeAt0) =? SALT_LENGTH + HASH_LENGTH)%nat
  | Abrupt _ => false
  end.

(** The bytes a stored text stands for: what [comparePassword] reads out of
    it ([None] when [atob] throws). *)
Definition map_atob_bytes (storedHash : jsstring) : option Uint8Array :=
  match atob storedHash with
  | Normal decoded => Some (Uint8Array_from decoded charCodeAt0)
  | Abrupt _ => None
  end.

Section Service.
Context {P : Platform}.

(** *** Interpretation *)

Definition handle (X : Type) (op : Eff X) (w0 : World) : X * World :=
  let w := record_call (Called op) w0 in
  match op in Eff X return X * World with
  | UserFindUnique email => (find_unique email (table w), w)
  | UserCreate data =>
      let (r, t) := user_create data (table w) in
      (r, with_table (fun _ => t) w)
  | GetRandomValues n =>
      (map (entropy w) (seq (drawn w) n),
       mkWorld (table w) (entropy w) (drawn w + n) (clock w) (ticks w) (journal w))
  | ImportKey material => (mkCryptoKey material, w)
  | DeriveBits salt iterations key bits =>
      (pbkdf2_sha256 (key_material key) salt iterations bits, w)
  | DateNow =>
      (clock w (ticks w),
       mkWorld (table w) (entropy w) (drawn w) (clock w) (S (ticks w)) (journal w))
  | JwtSign payload secret => (jwt_sign payload secret, w)
  end.

(** A request runs among other requests: [others] lists what they do to the
    table just before each database call of this one (nothing, once the
    list is exhausted).  The result comes with the world it leaves and the
    part of [others] still to come. *)
Fixpoint run_among (A : Type) (others : list (Table -> Table)) (p : Prog A)
  (w : World) : completion A * World * list (Table -> Table) :=
  match p with
  | Ret a => (Normal a, w, others)
  | Throw e => (Abrupt e, w, others)
  | Do op k =>
      let (others', w1) :=
        if is_database_call op then
          match others with
          | f :: r => (r, with_table f w)
          | [] => ([], w)
          end
        else (others, w) in
      let (x, w2) := handle op w1 in
      run_among others' (k x) w2
  end.

(** A request that runs alone. *)
Definition run (A : Type) (p : Prog A) (w : World) : completion A * World :=
  fst (run_among [] p w).

(** *** utils/password *)

Definition getPasswordKey (password : jsstring) : Prog CryptoKey :=
  perform (ImportKey (TextEncoder_encode password)).

Definition hashPassword (password : jsstring) : Prog jsstring :=
  salt <- perform (GetRandomValues SALT_LENGTH) ;;
  key <- getPasswordKey password ;;
  hash <- perform (DeriveBits salt ITERATIONS key (HASH_LENGTH * 8)) ;;
  let hashArray : Uint8Array := hash in
  combinedArray <-
    lift (Uint8Array_set (new_Uint8Array (length salt + length hashArray)) salt 0) ;;
  combinedArray <- lift (Uint8Array_set combinedArray hashArray (length salt)) ;;
  lift (btoa (String_fromCharCode combinedArray)).

Definition comparePassword (password storedHash : jsstring) : Prog bool :=
  try_catch
    (decoded <- lift (atob storedHash) ;;
     let combined := Uint8Array_from decoded charCodeAt0 in
     let salt := slice combined 0 SALT_LENGTH in
     let hash := slice_from combined SALT_LENGTH in
     key <- getPasswordKey password ;;
     newHash <- perform (DeriveBits salt ITERATIONS key (HASH_LENGTH * 8)) ;;
     let newHashArray : Uint8Array := newHash in
     Ret (fst (compare_keys hash newHashArray)))
    (fun _ => Ret false).

(** *** services/user-service *)

Definition createUser (userData : CreateUserInput.t) : Prog User.t :=
  let profileCompleted :=
    match CreateUserInput.profileCompleted userData with
    | Some b => b
    | None => false
    end in
  created_at <- perform DateNow ;;
  updated_at <- perform DateNow ;;
  created <-
    perform (UserCreate
               (UserCreateArgs.mk (CreateUserInput.email userData)
                  (CreateUserInput.passwordHash userData)
                  (CreateUserInput.name userData)
                  (CreateUserInput.role userData)
                  profileCompleted created_at updated_at)) ;;
  lift created.

Definition getUserByEmail (email : jsstring) : Prog (option User.t) :=
  perform (UserFindUnique email).

(** *** utils/jwt *)

Definition generateToken (payload : JWTPayload.t) (secret : jsstring)
  : Prog jsstring :=
  perform (JwtSign payload secret).

(** *** services/auth-service *)

Section AuthService.
Variable jwtSecret : jsstring.

Definition generateAuthResponse (user : User.t) : Prog AuthResponse.t :=
  now_iat <- perform DateNow ;;
  now_exp <- perform DateNow ;;
  let payload :=
    JWTPayload.mk (User.id user) (User.email user) (or_empty (User.name user))
      (User.role user)
      (Some (now_iat / 1000)%Z)
      (Some (now_exp / 1000 + 24 * 60 * 60)%Z) in
  token <- generateToken payload jwtSecret ;;
  Ret (AuthResponse.mk token (24 * 60 * 60)%Z
         (UserView.mk (User.id user) (User.email user)
            (or_empty (User.name user)) (User.role user)
            (User.profile_completed user))).

Definition signup (input : SignupInput.t) : Prog AuthResponse.t :=
  existingUser <- getUserByEmail (SignupInput.email input) ;;
  match existingUser with
  | Some _ => Throw (mkExn PlainError (lit "User already exists"))
  | None =>
      passwordHash <- hashPassword (SignupInput.password input) ;;
      user <-
        createUser
          (CreateUserInput.mk (SignupInput.email input) passwordHash
             (SignupInput.name input) (SignupInput.role input) (Some false)) ;;
      generateAuthResponse user
  end.

Definition login (input : LoginInput.t) : Prog AuthResponse.t :=
  user <- getUserByEmail (LoginInput.email input) ;;
  match user with
  | None => Throw (mkExn PlainError (lit "Invalid email or password"))
  | Some user =>
      isValidPassword <-
        comparePassword (LoginInput.password input) (User.password_hash user) ;;
      if negb isValidPassword
      then Throw (mkExn PlainError (lit "Invalid email or password"))
      else generateAuthResponse user
  end.

End AuthService.
End Service.

(** ** routes/auth *)

(** A parsed request body.  Numbers are not inspected by the schemas. *)
#[warnings="-register-all"]
Inductive json :=
| JNull
| JBool (b : bool)
| JNumber (n : Z)
| JString (s : jsstring)
| JArray (items : list json)
| JObject (members : list (jsstring * json)).

(** Property lookup: [None] is [undefined]. *)
Fixpoint member (key : jsstring) (members : list (jsstring * json)) : option json :=
  match members with
  | [] => None
  | (k, v) :: rest => if str_eqb k key then Some v else member key rest
  end.

(** [z.string()] with one further check. *)
Definition z_string (check : jsstring -> bool) (v : option json) : option jsstring :=
  match v with
  | Some (JString s) => if check s then Some s else None
  | _ => None
  end.

(** [z.enum(values)] *)
Definition z_enum (values : list jsstring) (v : option json) : option jsstring :=
  match v with
  | Some (JString s) => if existsb (str_eqb s) values then Some s else None
  | _ => None
  end.

Definition min_length (n : nat) (s : jsstring) : bool := (n <=? length s)%nat.

Definition issue_at (A : Type) (path : string) (parsed : option A) : list jsstring :=
  match parsed with
  | Some _ => []
  | None => [lit path]
  end.

(** A [ZodError]; its message is the serialised list of issues. *)
Definition zod_error (issues : list jsstring) : Exn :=
  mkExn (ZodError issues) (lit "[" ++ concat issues ++ lit "]").

(** The answer of a route: status and JSON body. *)
Inductive ResponseBody :=
| AuthBody (result : AuthResponse.t)
| ErrorBody (message : jsstring) (cause : option (list jsstring)).

Record Response := mkResponse { status : Z; body : ResponseBody }.

Section Routes.
Context {P : Platform}.

Definition signupSchema_parse (data : json) : completion SignupInput.t :=
  match data with
  | JObject members =>
      let email := z_string isEmail (member (lit "email") members) in
      let password := z_string (min_length 6) (member (lit "password") members) in
      let name := z_string (min_length 1) (member (lit "name") members) in
      let role := z_enum [lit "farmer"; lit "consumer"] (member (lit "role") members) in
      match email, password, name, role with
      | Some e, Some p, Some n, Some r => Normal (SignupInput.mk e p n r)
      | _, _, _, _ =>
          Abrupt (zod_error (issue_at "email" email ++ issue_at "password" password
                               ++ issue_at "name" name ++ issue_at "role" role))
      end
  | _ => Abrupt (zod_error [[]])
  end.

Definition loginSchema_parse (data : json) : completion LoginInput.t :=
  match data with
  | JObject members =>
      let email := z_string isEmail (member (lit "email") members) in
      let password := z_string (fun _ => true) (member (lit "password") members) in
      match email, password with
      | Some e, Some p => Normal (LoginInput.mk e p)
      | _, _ =>
          Abrupt (zod_error (issue_at "email" email ++ issue_at "password" password))
      end
  | _ => Abrupt (zod_error [[]])
  end.

(** The outer [catch] of both routes. *)
Definition outer_catch (error : Exn) : Prog Response :=
  match exn_class error with
  | ZodError issues =>
      Ret (mkResponse 400 (ErrorBody (lit "Invalid input") (Some issues)))
  | HTTPException st => Ret (mkResponse st (ErrorBody (exn_message error) None))
  | _ => Ret (mkResponse 500 (ErrorBody (lit "An unknown error occurred") None))
  end.

(** [auth.post('/sign-up', ...)] on a parsed body. *)
Definition sign_up (JWT_SECRET : jsstring) (data : json) : Prog Response :=
  try_catch
    (input <- lift (signupSchema_parse data) ;;
     try_catch
       (result <- signup JWT_SECRET input ;;
        Ret (mkResponse 200 (AuthBody result)))
       (fun error =>
          if str_eqb (exn_message error) (lit "User already exists")
          then Ret (mkResponse 409 (ErrorBody (lit "User already exists") None))
          else Throw error))
    outer_catch.

(** [auth.post('/log-in', ...)] on a parsed body. *)
Definition log_in (JWT_SECRET : jsstring) (data : json) : Prog Response :=
  try_catch
    (input <- lift (loginSchema_parse data) ;;
     try_catch
       (result <- login JWT_SECRET input ;;
        Ret (mkResponse 200 (AuthBody result)))
       (fun error =>
          if str_eqb (exn_message error) (lit "Invalid email or password")
          then Ret (mkResponse 401 (ErrorBody (lit "Invalid email or password") None))
          else Throw error))
    outer_catch.

End Routes.

(** ** utils/prisma *)

Module Prisma.

(** A database binding of the worker. *)
Definition D1Database := nat.

(** A client object: [ident] tells one constructed object from another;
    [adapter] and [log] are the options it was constructed with. *)
Record PrismaClient := mkClient {
  ident : nat;
  adapter : option D1Database;
  log : list string
}.

(** The module variable [prisma], the number of clients constructed so far,
    and the clients whose [$disconnect] has completed. *)
Record State := mkState {
  prisma : option PrismaClient;
  constructed : nat;
  disconnected : list nat
}.

(** The state when the module is loaded. *)
Definition initial : State := mkState None 0 [].

Definition getPrismaClient (d1Database : option D1Database) (s : State)
  : PrismaClient * State :=
  match prisma s with
  | Some client => (client, s)
  | None =>
      let client :=
        match d1Database with
        | Some d1 => mkClient (constructed s) (Some d1) ["query"; "error"; "warn"]%string
        | None => mkClient (constructed s) None ["query"; "error"; "warn"]%string
        end in
      (client, mkState (Some client) (S (constructed s)) (disconnected s))
  end.

(** [outcome] is what [prisma.$disconnect()] settles to: when it rejects,
    the assignment after the [await] is not reached. *)
Definition disconnectPrisma (outcome : completion unit) (s : State)
  : completion unit * State :=
  match prisma s with
  | Some client =>
      match outcome with
      | Normal _ =>
          (Normal tt, mkState None (constructed s) (ident client :: disconnected s))
      | Abrupt e => (Abrupt e, s)
      end
  | None => (Normal tt, s)
  end.

Definition getNewPrismaClient (d1Database : option D1Database) (s : State)
  : PrismaClient * State :=
  let client :=
    match d1Database with
    | Some d1 => mkClient (constructed s) (Some d1) []
    | None => mkClient (constructed s) None []
    end in
  (client, mkState (prisma s) (S (constructed s)) (disconnected s)).

(** The states the module variable can be in after any sequence of calls of
    the three functions. *)
Inductive reachable : State -> Prop :=
| reach_initial : reachable initial
| reach_get d s : reachable s -> reachable (snd (getPrismaClient d s))
| reach_disconnect o s : reachable s -> reachable (snd (disconnectPrisma o s))
| reach_new d s : reachable s -> reachable (snd (getNewPrismaClient d s)).

End Prisma.

(** ** A small platform and worlds for concrete runs *)

(** A stand-in for the runtime: the key is the key material followed by the
    salt, cut or zero-filled to the requested length; a string is an e-mail
    when it has an [@]; a token is the subject's e-mail, a dot, the secret. *)
Definition toy_platform : Platform := {|
  TextEncoder_encode := map ToUint8;
  pbkdf2_sha256 := fun material salt _ bits =>
    firstn (bits / 8) (material ++ salt ++ repeat x00 (bits / 8));
  isEmail := existsb (N.eqb 64);
  jwt_sign := fun payload secret => JWTPayload.email payload ++ lit "." ++ secret
|}.

(** An empty table, a random source that counts up, a clock that starts at
    [start] milliseconds and gains one millisecond per reading. *)
Definition fresh_world (start : Z) : World :=
  mkWorld (mkTable [] 0)
    (fun k => ToUint8 (N.of_nat k)) 0
    (fun k => (start + Z.of_nat k)%Z) 0
    [].

Definition signup_body (email role : string) : json :=
  JObject [(lit "email", JString (lit email));
           (lit "password", JString (lit "secret123"));
           (lit "name", JString (lit "Alice"));
           (lit "role", JString (lit role))].

Section Concrete.
#[local] Existing Instance toy_platform.

Definition alice : SignupInput.t :=
  SignupInput.mk (lit "a@x.com") (lit "secret123") (lit "Alice") (lit "farmer").

(** What the toy platform stores for the password [secret123] when the random
    source is at its start. *)
Definition alice_hash : jsstring :=
  match fst (run (hashPassword (lit "secret123")) (fresh_world 0)) with
  | Normal h => h
  | Abrupt _ => []
  end.

Definition alice_record : User.t :=
  User.mk 1 (lit "a@x.com") (Some (lit "Alice")) alice_hash (lit "farmer") false 0 1.

Definition alice_response : AuthResponse.t :=
  AuthResponse.mk (lit "a@x.com.k") 86400
    (UserView.mk 1 (lit "a@x.com") (lit "Alice") (lit "farmer") false).

(** The world after Alice has signed up in a fresh world. *)
Definition world_with_alice : World :=
  snd (run (signup (lit "k") alice) (fresh_world 0)).

(** A record as an older release could have left it: no name. *)
Definition nameless_record : User.t :=
  User.mk 1 (lit "a@x.com") None alice_hash (lit "farmer") false 0 1.

Definition world_with_nameless : World :=
  mkWorld (mkTable [nameless_record] 1)
    (fun k => ToUint8 (N.of_nat k)) 0
    (fun k => Z.of_nat k) 0
    [].

(** Another request that stores a record with Alice's e-mail. *)
Definition rival_insert (t : Table) : Table :=
  mkTable
    (rows t ++ [User.mk (sequence t + 1) (lit "a@x.com") (Some (lit "Rival"))
                  alice_hash (lit "consumer") false 0 0])
    (sequence t + 1).

End Concrete.

(* ===================================================================== *)
(** * Part II: properties *)
(* ===================================================================== *)

(** ** Arithmetic and list helpers *)

Ltac div_lia := zify; Z.to_euclidean_division_equations; lia.

Lemma list_ind3 (A : Type) (P : list A -> Prop) :
  P [] -> (forall a, P [a]) -> (forall a b, P [a; b]) ->
  (forall a b c l, P l -> P (a :: b :: c :: l)) ->
  forall l, P l.
Proof.
  intros H0 H1 H2 H3.
  fix IH 1.
  intros [|a [|b [|c l]]]; [apply H0 | apply H1 | apply H2 | apply H3, IH].
Qed.

Lemma str_eqb_eq (a b : jsstring) : str_eqb a b = true <-> a = b.
Proof.
  revert b; induction a as [|x a IH]; intros [|y b]; simpl; split;
    try congruence; try reflexivity.
  - rewrite andb_true_iff, N.eqb_eq, IH. intros [-> ->]. reflexivity.
  - intros H. injection H as -> ->. rewrite N.eqb_refl.
    apply IH. reflexivity.
Qed.

Lemma str_eqb_refl (a : jsstring) : str_eqb a a = true.
Proof. apply str_eqb_eq. reflexivity. Qed.

(** ** Base64 round trip *)

Module Base64Facts.
Import Base64.
Open Scope N_scope.

Lemma below_64 (P : N -> bool) :
  forallb P (map N.of_nat (seq 0 64)) = true ->
  forall s, s < 64 -> P s = true.
Proof.
  intros H s Hs. rewrite forallb_forall in H. apply H.
  apply in_map_iff. exists (N.to_nat s). split.
  - apply N2Nat.id.
  - apply in_seq. lia.
Qed.

Lemma sextet_of_alphabet (s : N) : s < 64 -> sextet_of (alphabet s) = Some s.
Proof.
  intros Hs.
  pose proof (below_64 (fun s => match sextet_of (alphabet s) with
                                  | Some t => t =? s
                                  | None => false
                                  end) ltac:(vm_compute; reflexivity) Hs) as H.
  cbv beta in H. destruct (sextet_of (alphabet s)); [|discriminate].
  apply N.eqb_eq in H. congruence.
Qed.

Lemma alphabet_not_pad (s : N) : s < 64 -> alphabet s <> pad.
Proof.
  intros Hs.
  pose proof (below_64 (fun s => negb (alphabet s =? pad))
                ltac:(vm_compute; reflexivity) Hs) as H.
  cbv beta in H. apply negb_true_iff, N.eqb_neq in H. exact H.
Qed.

Lemma alphabet_not_whitespace (s : N) :
  s < 64 -> is_ascii_whitespace (alphabet s) = false.
Proof.
  intros Hs.
  pose proof (below_64 (fun s => negb (is_ascii_whitespace (alphabet s)))
                ltac:(vm_compute; reflexivity) Hs) as H.
  cbv beta in H. apply negb_true_iff in H. exact H.
Qed.

Lemma to_sextets_bounded (l : list N) :
  Forall (fun b => b < 256) l -> Forall (fun s => s < 64) (to_sextets l).
Proof.
  induction l as [| a | a b | a b c l IH] using list_ind3; intros H; simpl.
  - constructor.
  - inversion_clear H. repeat constructor; div_lia.
  - inversion_clear H as [|? ? Ha H']. inversion_clear H'.
    repeat constructor; div_lia.
  - inversion_clear H as [|? ? Ha H']. inversion_clear H' as [|? ? Hb H''].
    inversion_clear H'' as [|? ? Hc Hl].
    repeat (constructor; [div_lia|]). auto.
Qed.

Lemma of_to_sextets (l : list N) :
  Forall (fun b => b < 256) l -> of_sextets (to_sextets l) = l.
Proof.
  induction l as [| a | a b | a b c l IH] using list_ind3; intros H; simpl.
  - reflexivity.
  - inversion_clear H. f_equal. div_lia.
  - inversion_clear H as [|? ? Ha H']. inversion_clear H'.
    f_equal; [|f_equal]; div_lia.
  - inversion_clear H as [|? ? Ha H']. inversion_clear H' as [|? ? Hb H''].
    inversion_clear H'' as [|? ? Hc Hl].
    rewrite (IH Hl). f_equal; [|f_equal; [|f_equal]]; div_lia.
Qed.

Lemma sextets_of_alphabet (ss : list N) :
  Forall (fun s => s < 64) ss -> sextets_of (map alphabet ss) = Some ss.
Proof.
  induction 1 as [|s ss Hs _ IH]; simpl.
  - reflexivity.
  - rewrite (sextet_of_alphabet Hs), IH. reflexivity.
Qed.

Lemma mod3_step (n : nat) : (S (S (S n)) mod 3 = n mod 3)%nat.
Proof.
  replace (S (S (S n))) with (n + 1 * 3)%nat by lia.
  apply Nat.Div0.mod_add.
Qed.

Lemma mod4_step (n p : nat) : ((S (S (S (S n))) + p) mod 4 = (n + p) mod 4)%nat.
Proof.
  replace (S (S (S (S n))) + p)%nat with (n + p + 1 * 4)%nat by lia.
  apply Nat.Div0.mod_add.
Qed.

Lemma padding_step (n : nat) : padding (S (S (S n))) = padding n.
Proof. unfold padding. rewrite mod3_step. reflexivity. Qed.

Lemma encode_shape (l : list N) :
  (padding (length l) <= 2)%nat
  /\ ((length (to_sextets l) + padding (length l)) mod 4 = 0)%nat
  /\ ((length (to_sextets l) + 0) mod 4 <> 1)%nat.
Proof.
  induction l as [| a | a b | a b c l IH] using list_ind3.
  - cbv. repeat split; lia.
  - cbv. repeat split; lia.
  - cbv. repeat split; lia.
  - cbn [length to_sextets]. rewrite padding_step, !mod4_step. exact IH.
Qed.

Lemma last_not_pad (xs : jsstring) :
  Forall (fun c => c <> pad) xs -> ends_with_pad xs = false.
Proof.
  unfold ends_with_pad.
  destruct xs as [|x xs'] using rev_ind; intros H.
  - reflexivity.
  - rewrite last_last. apply N.eqb_neq.
    apply Forall_app in H. destruct H as [_ H]. inversion H. assumption.
Qed.

Lemma strip_padding_encoded (xs : jsstring) (k : nat) :
  Forall (fun c => c <> pad) xs -> (k <= 2)%nat ->
  ((length xs + k) mod 4 = 0)%nat ->
  strip_padding (xs ++ repeat pad k) = xs.
Proof.
  intros Hxs Hk Hlen. unfold strip_padding.
  rewrite length_app, repeat_length, Hlen. cbn [Nat.eqb].
  destruct k as [|[|[|k]]]; [| | |lia]; cbn [repeat].
  - rewrite app_nil_r, (last_not_pad Hxs). reflexivity.
  - unfold ends_with_pad at 1. rewrite last_last, N.eqb_refl.
    rewrite removelast_last, (last_not_pad Hxs). reflexivity.
  - change (xs ++ [pad; pad]) with (xs ++ [pad] ++ [pad]).
    rewrite app_assoc.
    unfold ends_with_pad at 1. rewrite last_last, N.eqb_refl.
    rewrite removelast_last.
    unfold ends_with_pad. rewrite last_last, N.eqb_refl.
    rewrite removelast_last. reflexivity.
Qed.

Lemma filter_all (A : Type) (f : A -> bool) (l : list A) :
  Forall (fun x => f x = true) l -> filter f l = l.
Proof.
  induction 1 as [|x l Hx _ IH]; simpl.
  - reflexivity.
  - rewrite Hx, IH. reflexivity.
Qed.

(** Decoding what was encoded gives back the bytes. *)
Lemma decode_encode (l : list N) :
  Forall (fun b => b < 256) l -> decode (encode l) = Some l.
Proof.
  intros Hl.
  pose proof (to_sextets_bounded Hl) as Hss.
  destruct (encode_shape l) as (Hk & Hlen & Hone).
  assert (Hnp : Forall (fun c => c <> pad) (map alphabet (to_sextets l))).
  { apply Forall_map. eapply Forall_impl; [|exact Hss].
    intros s Hs. apply alphabet_not_pad. exact Hs. }
  unfold decode, encode.
  rewrite filter_all.
  - rewrite strip_padding_encoded; auto.
    + rewrite length_map. rewrite Nat.add_0_r in Hone.
      apply Nat.eqb_neq in Hone. rewrite Hone.
      rewrite sextets_of_alphabet by exact Hss.
      cbn [option_map]. rewrite of_to_sextets by exact Hl. reflexivity.
    + rewrite length_map. exact Hlen.
  - apply Forall_app. split.
    + apply Forall_map. eapply Forall_impl; [|exact Hss].
      intros s Hs. cbv beta. rewrite alphabet_not_whitespace by exact Hs.
      reflexivity.
    + apply Forall_forall. intros c Hc. apply repeat_spec in Hc. subst c.
      reflexivity.
Qed.
End Base64Facts.

(** ** Running programs *)

Section RunFacts.
Context {P : Platform}.

Lemma run_among_bind (A B : Type) (p : Prog A) (f : A -> Prog B)
  (others : list (Table -> Table)) (w : World) :
  run_among others (bind p f) w =
  match run_among others p w with
  | (Normal a, w', rest) => run_among rest (f a) w'
  | (Abrupt e, w', rest) => (Abrupt e, w', rest)
  end.
Proof.
  revert others w. induction p as [a | e | X op k IH]; intros others w.
  - reflexivity.
  - reflexivity.
  - cbn [bind run_among].
    destruct (is_database_call op); [destruct others|];
      destruct (handle op _) as [x w2]; apply IH.
Qed.

Lemma run_among_try_catch (A : Type) (p : Prog A) (handler : Exn -> Prog A)
  (others : list (Table -> Table)) (w : World) :
  run_among others (try_catch p handler) w =
  match run_among others p w with
  | (Normal a, w', rest) => (Normal a, w', rest)
  | (Abrupt e, w', rest) => run_among rest (handler e) w'
  end.
Proof.
  revert others w. induction p as [a | e | X op k IH]; intros others w.
  - reflexivity.
  - reflexivity.
  - cbn [try_catch run_among].
    destruct (is_database_call op); [destruct others|];
      destruct (handle op _) as [x w2]; apply IH.
Qed.

(** A call that does not touch the database leaves [others] waiting. *)
Lemma run_among_perform (X : Type) (op : Eff X)
  (others : list (Table -> Table)) (w : World) :
  is_database_call op = false ->
  run_among others (perform op) w
  = (Normal (fst (handle op w)), snd (handle op w), others).
Proof.
  intros H. unfold perform. cbn [run_among]. rewrite H.
  destruct (handle op w); reflexivity.
Qed.

Lemma run_among_lift (A : Type) (c : completion A)
  (others : list (Table -> Table)) (w : World) :
  run_among others (lift c) w = (c, w, others).
Proof. destruct c; reflexivity. Qed.

(** Alone, a request stays alone. *)
Lemma run_among_nil (A : Type) (p : Prog A) (w : World) :
  run_among [] p w = (run p w, []).
Proof.
  unfold run. revert w. induction p as [a | e | X op k IH]; intros w.
  - reflexivity.
  - reflexivity.
  - cbn [run_among].
    destruct (is_database_call op); destruct (handle op w) as [x w2]; apply IH.
Qed.

Lemma run_perform (X : Type) (op : Eff X) (w : World) :
  run (perform op) w = (Normal (fst (handle op w)), snd (handle op w)).
Proof.
  unfold run, perform. cbn [run_among].
  destruct (is_database_call op); destruct (handle op w); reflexivity.
Qed.

Lemma run_lift (A : Type) (c : completion A) (w : World) : run (lift c) w = (c, w).
Proof. destruct c; reflexivity. Qed.

Lemma run_bind (A B : Type) (p : Prog A) (f : A -> Prog B) (w : World) :
  run (bind p f) w =
  match run p w with
  | (Normal a, w') => run (f a) w'
  | (Abrupt e, w') => (Abrupt e, w')
  end.
Proof.
  unfold run at 1. rewrite run_among_bind, run_among_nil.
  destruct (run p w) as [[a|e] w']; [|reflexivity].
  rewrite run_among_nil. reflexivity.
Qed.

Lemma run_try_catch (A : Type) (p : Prog A) (handler : Exn -> Prog A) (w : World) :
  run (try_catch p handler) w =
  match run p w with
  | (Normal a, w') => (Normal a, w')
  | (Abrupt e, w') => run (handler e) w'
  end.
Proof.
  unfold run at 1. rewrite run_among_try_catch, run_among_nil.
  destruct (run p w) as [[a|e] w']; [reflexivity|].
  rewrite run_among_nil. reflexivity.
Qed.

End RunFacts.

(** ** The credential hasher *)

Lemma ToUint8_to_N (b : byte) : ToUint8 (Byte.to_N b) = b.
Proof.
  unfold ToUint8. pose proof (Byte.to_N_bounded b) as Hb.
  rewrite N.mod_small by lia. rewrite Byte.of_to_N. reflexivity.
Qed.

Lemma bytes_bounded (bs : Uint8Array) :
  Forall (fun c => (c < 256)%N) (String_fromCharCode bs).
Proof.
  unfold String_fromCharCode. apply Forall_map, Forall_forall.
  intros b _. pose proof (Byte.to_N_bounded b). lia.
Qed.

Lemma code_points_latin1 (s : jsstring) :
  Forall (fun c => (c < 256)%N) s -> code_points s = map (fun c => [c]) s.
Proof.
  induction 1 as [|c r Hc _ IH]; [reflexivity|].
  cbn [code_points map]. rewrite <- IH.
  assert (Hl : is_lead_surrogate c = false).
  { unfold is_lead_surrogate. apply andb_false_iff. left.
    apply N.leb_gt. lia. }
  rewrite Hl. destruct r; reflexivity.
Qed.

(** Reading back the bytes of a string made of bytes. *)
Lemma Uint8Array_from_bytes (bs : Uint8Array) :
  Uint8Array_from (String_fromCharCode bs) charCodeAt0 = bs.
Proof.
  unfold Uint8Array_from. rewrite code_points_latin1 by apply bytes_bounded.
  unfold String_fromCharCode. rewrite !map_map. cbn [charCodeAt0 hd].
  induction bs as [|b bs IH]; [reflexivity|].
  cbn [map]. rewrite ToUint8_to_N, IH. reflexivity.
Qed.

Lemma btoa_bytes (bs : Uint8Array) :
  btoa (String_fromCharCode bs) = Normal (Base64.encode (String_fromCharCode bs)).
Proof.
  unfold btoa.
  replace (forallb (fun c => (c <=? 255)%N) (String_fromCharCode bs)) with true;
    [reflexivity|].
  symmetry. apply forallb_forall. intros c Hc.
  pose proof (bytes_bounded bs) as H. rewrite Forall_forall in H.
  apply N.leb_le. specialize (H c Hc). cbv beta in H. lia.
Qed.

(** [atob] undoes [btoa] on strings made of bytes. *)
Lemma atob_btoa_bytes (bs : Uint8Array) :
  atob (Base64.encode (String_fromCharCode bs)) = Normal (String_fromCharCode bs).
Proof.
  unfold atob. rewrite Base64Facts.decode_encode by apply bytes_bounded.
  reflexivity.
Qed.

(** The two [set] calls of [hashPassword] lay the salt and the key side by
    side. *)
Lemma combine_salt_and_key (salt hashArray : Uint8Array) :
  Uint8Array_set (new_Uint8Array (length salt + length hashArray)) salt 0
  = Normal (salt ++ new_Uint8Array (length hashArray))
  /\ Uint8Array_set (salt ++ new_Uint8Array (length hashArray)) hashArray (length salt)
     = Normal (salt ++ hashArray).
Proof.
  unfold Uint8Array_set, new_Uint8Array. split.
  - rewrite repeat_length.
    replace (0 + length salt <=? length salt + length hashArray) with true
      by (symmetry; apply Nat.leb_le; lia).
    cbn [firstn app Nat.add]. f_equal. f_equal.
    rewrite repeat_app, skipn_app, repeat_length, Nat.sub_diag.
    rewrite skipn_all2 by (rewrite repeat_length; lia).
    reflexivity.
  - rewrite length_app, repeat_length.
    replace (length salt + length hashArray <=? length salt + length hashArray)
      with true by (symmetry; apply Nat.leb_le; lia).
    f_equal.
    rewrite firstn_app, Nat.sub_diag, firstn_all2 by lia.
    cbn [firstn]. rewrite app_nil_r. f_equal.
    rewrite skipn_all2 by (rewrite length_app, repeat_length; lia).
    apply app_nil_r.
Qed.

Lemma every_run_against (h n p : Uint8Array) :
  length h = length n ->
  every_run
    (fun value index =>
       match nth_error (p ++ n) index with
       | Some other => Byte.eqb value other
       | None => false
       end) h (length p)
  = (common_prefix h n =? length h, Nat.min (length h) (S (common_prefix h n))).
Proof.
  revert n p. induction h as [|x h IH]; intros [|y n] p Hlen;
    try discriminate Hlen.
  - reflexivity.
  - cbn [every_run common_prefix length].
    rewrite nth_error_app2, Nat.sub_diag by lia. cbn [nth_error].
    destruct (Byte.eqb x y).
    + replace (S (length p)) with (length (p ++ [y]))
        by (rewrite length_app; cbn [length]; lia).
      replace (p ++ y :: n) with ((p ++ [y]) ++ n)
        by (rewrite <- app_assoc; reflexivity).
      rewrite IH by (cbn [length] in Hlen; lia).
      reflexivity.
    + cbn [Nat.eqb Nat.min]. rewrite Nat.min_0_r. reflexivity.
Qed.

Lemma compare_keys_spec (hash newHashArray : Uint8Array) :
  length hash = length newHashArray ->
  compare_keys hash newHashArray
  = (common_prefix hash newHashArray =? length hash,
     Nat.min (length hash) (S (common_prefix hash newHashArray))).
Proof.
  intros Hlen. unfold compare_keys.
  rewrite Hlen, Nat.eqb_refl. cbn [negb]. rewrite <- Hlen.
  apply (every_run_against hash newHashArray [] Hlen).
Qed.

Lemma common_prefix_full (a b : Uint8Array) :
  length a = length b -> (common_prefix a b = length a <-> a = b).
Proof.
  revert b. induction a as [|x a IH]; intros [|y b] Hlen; try discriminate Hlen.
  - split; reflexivity.
  - cbn [common_prefix length]. destruct (Byte.eqb x y) eqn:E.
    + apply Byte.byte_dec_bl in E. subst y.
      cbn [length] in Hlen. specialize (IH b ltac:(lia)).
      split.
      * intros H. f_equal. apply IH. lia.
      * intros H. injection H as H. f_equal. apply IH. exact H.
    + split; [discriminate|].
      intros H. injection H as H _. subst y.
      rewrite Byte.byte_dec_lb in E by reflexivity. discriminate.
Qed.

Lemma compare_keys_same (key : Uint8Array) : fst (compare_keys key key) = true.
Proof.
  rewrite compare_keys_spec by reflexivity. cbn [fst].
  apply Nat.eqb_eq, common_prefix_full; reflexivity.
Qed.

Section HasherFacts.
Context {P : Platform}.

(** What [hashPassword] returns: the base64 text of the salt drawn from the
    random source followed by the key derived with it. *)
Lemma run_hashPassword (password : jsstring) (w : World) :
  let salt := map (entropy w) (seq (drawn w) SALT_LENGTH) in
  let key := pbkdf2_sha256 (TextEncoder_encode password) salt ITERATIONS
               (HASH_LENGTH * 8) in
  exists w1,
    run (hashPassword password) w
    = (Normal (Base64.encode (String_fromCharCode (salt ++ key))), w1)
    /\ table w1 = table w.
Proof.
  intros salt key. unfold hashPassword, getPasswordKey.
  rewrite run_bind, run_perform. cbn [handle fst snd].
  rewrite run_bind, run_perform. cbn [handle fst snd].
  rewrite run_bind, run_perform. cbn [handle fst snd key_material].
  cbn [record_call table entropy drawn clock ticks journal].
  fold salt. fold key.
  destruct (combine_salt_and_key salt key) as [H1 H2].
  rewrite run_bind, run_lift, H1.
  rewrite run_bind, run_lift, H2.
  rewrite run_lift, btoa_bytes.
  eexists. split; reflexivity.
Qed.

(** What [comparePassword] returns: [false] when [atob] throws, the outcome
    of the comparison otherwise; it only adds to the journal. *)
Lemma run_comparePassword (password storedHash : jsstring) (w : World) :
  run (comparePassword password storedHash) w =
  match atob storedHash with
  | Abrupt _ => (Normal false, w)
  | Normal decoded =>
      let combined := Uint8Array_from decoded charCodeAt0 in
      let salt := slice combined 0 SALT_LENGTH in
      let material := TextEncoder_encode password in
      (Normal (fst (compare_keys (slice_from combined SALT_LENGTH)
                      (pbkdf2_sha256 material salt ITERATIONS (HASH_LENGTH * 8)))),
       record_call
         (Called (DeriveBits salt ITERATIONS (mkCryptoKey material) (HASH_LENGTH * 8)))
         (record_call (Called (ImportKey material)) w))
  end.
Proof.
  unfold comparePassword, getPasswordKey.
  rewrite run_try_catch, run_bind, run_lift.
  destruct (atob storedHash) as [decoded|e].
  - cbv zeta.
    rewrite run_bind, run_perform. cbn [handle fst snd].
    rewrite run_bind, run_perform. cbn [handle fst snd key_material].
    reflexivity.
  - reflexivity.
Qed.

(** [comparePassword] completes normally on every input. *)
Lemma comparePassword_returns (password storedHash : jsstring) (w : World) :
  exists b w', run (comparePassword password storedHash) w = (Normal b, w')
               /\ table w' = table w.
Proof.
  rewrite run_comparePassword.
  destruct (atob storedHash); cbv zeta; eexists; eexists; split; reflexivity.
Qed.

(** The outcome of [comparePassword] does not depend on the world. *)
Lemma comparePassword_outcome (password storedHash : jsstring) (w w0 : World) :
  fst (run (comparePassword password storedHash) w)
  = fst (run (comparePassword password storedHash) w0).
Proof.
  rewrite !run_comparePassword. destruct (atob storedHash); reflexivity.
Qed.

Lemma slice_salt (salt key : Uint8Array) :
  length salt = SALT_LENGTH ->
  slice (salt ++ key) 0 SALT_LENGTH = salt
  /\ slice_from (salt ++ key) SALT_LENGTH = key.
Proof.
  intros Hlen. unfold slice, slice_from. rewrite <- Hlen. split.
  - rewrite Nat.sub_0_r. cbn [skipn].
    rewrite firstn_app, Nat.sub_diag, firstn_all2 by lia.
    cbn [firstn]. apply app_nil_r.
  - rewrite skipn_app, Nat.sub_diag, skipn_all2 by lia. reflexivity.
Qed.

(** C2.  For every password and every state of the random source, the text
    [hashPassword] returns for the password makes [comparePassword] answer
    [true] for that same password. *)
Theorem hash_then_verify (password : jsstring) (w : World) :
  exists h w1,
    run (hashPassword password) w = (Normal h, w1)
    /\ forall w2, fst (run (comparePassword password h) w2) = Normal true.
Proof.
  destruct (run_hashPassword password w) as (w1 & Hrun & _).
  cbv zeta in Hrun.
  eexists. exists w1. split; [exact Hrun|].
  intros w2. rewrite run_comparePassword, atob_btoa_bytes. cbv zeta.
  rewrite Uint8Array_from_bytes.
  destruct (slice_salt (map (entropy w) (seq (drawn w) SALT_LENGTH))
              (pbkdf2_sha256 (TextEncoder_encode password)
                 (map (entropy w) (seq (drawn w) SALT_LENGTH)) ITERATIONS
                 (HASH_LENGTH * 8)))
    as [Hs Hk].
  { rewrite length_map, length_seq. reflexivity. }
  rewrite Hs, Hk. cbn [fst]. rewrite compare_keys_same. reflexivity.
Qed.

(** C6.  For every password and every stored string, [comparePassword]
    completes with a boolean and throws nothing; given that the key
    derivation returns [HASH_LENGTH] bytes, the boolean is [false] whenever
    the stored string is not base64 or does not decode to a salt and a key of
    the fixed lengths. *)
Theorem comparePassword_false_on_malformed
  (password storedHash : jsstring) (w : World) :
  (forall material salt,
      length (pbkdf2_sha256 material salt ITERATIONS (HASH_LENGTH * 8)) = HASH_LENGTH) ->
  exists b w',
    run (comparePassword password storedHash) w = (Normal b, w')
    /\ (well_formed_hash storedHash = false -> b = false).
Proof.
  intros Hkdf. rewrite run_comparePassword. unfold well_formed_hash.
  destruct (atob storedHash) as [decoded|e]; cbv zeta.
  - eexists. eexists. split; [reflexivity|].
    intros Hmal. apply Nat.eqb_neq in Hmal.
    unfold compare_keys.
    replace (length (slice_from (Uint8Array_from decoded charCodeAt0) SALT_LENGTH)
             =? length (pbkdf2_sha256 (TextEncoder_encode password)
                          (slice (Uint8Array_from decoded charCodeAt0) 0 SALT_LENGTH)
                          ITERATIONS (HASH_LENGTH * 8)))
      with false; [reflexivity|].
    symmetry. apply Nat.eqb_neq. rewrite Hkdf.
    unfold slice_from. rewrite length_skipn.
    unfold SALT_LENGTH, HASH_LENGTH in *. lia.
  - eexists. eexists. split; reflexivity.
Qed.

End HasherFacts.

(** C1 (as the code has it).  When the two keys have the same length the
    comparison answers [true] exactly when they are equal, and it calls the
    callback once per position up to and including the first difference: the
    number of calls is the index of the first difference plus one, or the
    length when there is none. *)
Theorem compare_keys_stops_at_first_difference (hash newHashArray : Uint8Array) :
  length hash = length newHashArray ->
  (fst (compare_keys hash newHashArray) = true <-> hash = newHashArray)
  /\ snd (compare_keys hash newHashArray)
     = Nat.min (length hash) (S (common_prefix hash newHashArray)).
Proof.
  intros Hlen. rewrite compare_keys_spec by exact Hlen. cbn [fst snd].
  split; [|reflexivity].
  rewrite Nat.eqb_eq. apply common_prefix_full. exact Hlen.
Qed.

(** ** The authentication service *)

Lemma find_none_existsb (A : Type) (f : A -> bool) (l : list A) :
  find f l = None -> existsb f l = false.
Proof.
  induction l as [|x l IH]; cbn [find existsb]; [reflexivity|].
  destruct (f x); [discriminate|]. exact IH.
Qed.

Lemma find_some_existsb (A : Type) (f : A -> bool) (l : list A) (x : A) :
  find f l = Some x -> existsb f l = true.
Proof.
  induction l as [|y l IH]; cbn [find existsb]; [discriminate|].
  destruct (f y); [reflexivity|]. exact IH.
Qed.

Lemma find_appended (A : Type) (f : A -> bool) (l : list A) (x : A) :
  find f l = None -> f x = true -> find f (l ++ [x]) = Some x.
Proof.
  intros Hl Hx. induction l as [|y l IH]; cbn [find app].
  - rewrite Hx. reflexivity.
  - cbn [find] in Hl. destruct (f y); [discriminate|]. apply IH. exact Hl.
Qed.

Section ServiceFacts.
Context {P : Platform}.
Variable jwtSecret : jsstring.

(** [hashPassword] makes no database call: requests running beside it wait. *)
Lemma run_among_hashPassword (password : jsstring)
  (others : list (Table -> Table)) (w : World) :
  exists h w1,
    run_among others (hashPassword password) w = (Normal h, w1, others)
    /\ table w1 = table w /\ clock w1 = clock w /\ ticks w1 = ticks w.
Proof.
  unfold hashPassword, getPasswordKey.
  rewrite run_among_bind, run_among_perform by reflexivity. cbn [handle fst snd].
  rewrite run_among_bind, run_among_perform by reflexivity. cbn [handle fst snd].
  rewrite run_among_bind, run_among_perform by reflexivity.
  cbn [handle fst snd key_material].
  cbn [record_call table entropy drawn clock ticks journal].
  match goal with
  | |- context [Uint8Array_set (new_Uint8Array (length ?s + length ?k)) ?s 0] =>
      destruct (combine_salt_and_key s k) as [H1 H2]
  end.
  rewrite run_among_bind, run_among_lift, H1.
  rewrite run_among_bind, run_among_lift, H2.
  rewrite run_among_lift, btoa_bytes.
  eexists. eexists. repeat split; reflexivity.
Qed.

(** What [generateAuthResponse] does: two readings of the clock, one
    signature, and a response built from the record. *)
Lemma run_generateAuthResponse (user : User.t) (w : World) :
  let payload :=
    JWTPayload.mk (User.id user) (User.email user) (or_empty (User.name user))
      (User.role user)
      (Some (clock w (ticks w) / 1000)%Z)
      (Some (clock w (S (ticks w)) / 1000 + 24 * 60 * 60)%Z) in
  exists w',
    run (generateAuthResponse jwtSecret user) w
    = (Normal (AuthResponse.mk (jwt_sign payload jwtSecret) 86400
                 (UserView.mk (User.id user) (User.email user)
                    (or_empty (User.name user)) (User.role user)
                    (User.profile_completed user))), w')
    /\ table w' = table w
    /\ journal w'
       = journal w ++ [Called DateNow; Called DateNow;
                       Called (JwtSign payload jwtSecret)].
Proof.
  intros payload. unfold generateAuthResponse, generateToken.
  rewrite run_bind, run_perform. cbn [handle fst snd].
  rewrite run_bind, run_perform. cbn [handle fst snd].
  rewrite run_bind, run_perform. cbn [handle fst snd].
  cbn [record_call table entropy drawn clock ticks journal].
  eexists. split; [reflexivity|]. split; [reflexivity|].
  unfold record_call. cbn [journal]. repeat rewrite <- app_assoc. reflexivity.
Qed.

Lemma run_signup_existing (input : SignupInput.t) (w : World) (existing : User.t) :
  find_unique (SignupInput.email input) (table w) = Some existing ->
  run (signup jwtSecret input) w
  = (Abrupt (mkExn PlainError (lit "User already exists")),
     record_call (Called (UserFindUnique (SignupInput.email input))) w).
Proof.
  intros Hfound. unfold signup, getUserByEmail.
  rewrite run_bind, run_perform. cbn [handle fst snd].
  cbn [record_call table]. rewrite Hfound. reflexivity.
Qed.

(** C7.  When the table already has a record with the e-mail of the input,
    [signup] throws [User already exists] after its one lookup: the table is
    as before, no random byte was drawn (no salt, hence no hash), and the
    lookup is the only call made; the route answers 409. *)
Theorem signup_existing_email_no_mutation
  (input : SignupInput.t) (w : World) (existing : User.t) :
  find_unique (SignupInput.email input) (table w) = Some existing ->
  exists w',
    run (signup jwtSecret input) w
    = (Abrupt (mkExn PlainError (lit "User already exists")), w')
    /\ table w' = table w
    /\ drawn w' = drawn w
    /\ journal w' = journal w ++ [Called (UserFindUnique (SignupInput.email input))]
    /\ forall data,
         signupSchema_parse data = Normal input ->
         run (sign_up jwtSecret data) w
         = (Normal (mkResponse 409 (ErrorBody (lit "User already exists") None)), w').
Proof.
  intros Hfound. pose proof (run_signup_existing input w Hfound) as Hrun.
  eexists. split; [exact Hrun|].
  repeat split.
  intros data Hparse. unfold sign_up.
  rewrite run_try_catch, run_bind, run_lift, Hparse.
  rewrite run_try_catch, run_bind, Hrun.
  reflexivity.
Qed.

Lemma run_hashPassword_alone (password : jsstring) (w : World) :
  exists h w1,
    run (hashPassword password) w = (Normal h, w1)
    /\ table w1 = table w /\ clock w1 = clock w /\ ticks w1 = ticks w.
Proof.
  destruct (run_among_hashPassword password [] w) as (h & w1 & Hrun & Hrest).
  exists h, w1. split; [|exact Hrest].
  unfold run. rewrite Hrun. reflexivity.
Qed.

(** A signup with a new e-mail stores one record, numbered after the
    counter of the table and not yet completed, and answers with what
    [generateAuthResponse] builds from that record. *)
Lemma run_signup_fresh (input : SignupInput.t) (w : World) :
  find_unique (SignupInput.email input) (table w) = None ->
  exists h w0,
    let u := User.mk (sequence (table w) + 1) (SignupInput.email input)
               (Some (SignupInput.name input)) h (SignupInput.role input) false
               (clock w (ticks w)) (clock w (S (ticks w))) in
    table w0 = mkTable (rows (table w) ++ [u]) (sequence (table w) + 1)
    /\ run (signup jwtSecret input) w = run (generateAuthResponse jwtSecret u) w0.
Proof.
  intros Hnone. unfold signup, getUserByEmail.
  rewrite run_bind, run_perform. cbn [handle fst snd].
  cbn [record_call table]. rewrite Hnone.
  destruct (run_hashPassword_alone (SignupInput.password input)
              (record_call (Called (UserFindUnique (SignupInput.email input))) w))
    as (h & w1 & Hhash & Ht & Hc & Hti).
  cbn [record_call table clock ticks] in Ht, Hc, Hti.
  rewrite run_bind, Hhash.
  unfold createUser. cbn [CreateUserInput.profileCompleted CreateUserInput.email
    CreateUserInput.passwordHash CreateUserInput.name CreateUserInput.role].
  rewrite !run_bind, run_perform. cbn [handle fst snd].
  rewrite run_bind, run_perform. cbn [handle fst snd].
  rewrite run_bind, run_perform. cbn [handle fst snd].
  cbn [record_call table entropy drawn clock ticks journal with_table].
  unfold user_create. cbn [UserCreateArgs.email UserCreateArgs.name
    UserCreateArgs.password_hash UserCreateArgs.role
    UserCreateArgs.profile_completed UserCreateArgs.created_at
    UserCreateArgs.updated_at].
  rewrite Ht, Hc, Hti.
  rewrite (find_none_existsb _ _ Hnone).
  rewrite run_lift.
  exists h. eexists. cbv zeta. split; [|reflexivity]. reflexivity.
Qed.

Lemma find_none_filter (A : Type) (f : A -> bool) (l : list A) :
  find f l = None -> filter f l = [].
Proof.
  induction l as [|x l IH]; cbn [find filter]; [reflexivity|].
  destruct (f x); [discriminate|]. exact IH.
Qed.

(** C8 (as the code has it).  E-mails are compared code unit by code unit.
    After a signup has succeeded the table holds exactly one record with
    that e-mail, and a second signup with the same e-mail throws
    [User already exists] and leaves the table as it is. *)
Theorem signup_same_email_rejected
  (first second : SignupInput.t) (w w1 : World) (r : AuthResponse.t) :
  run (signup jwtSecret first) w = (Normal r, w1) ->
  SignupInput.email second = SignupInput.email first ->
  length (filter (fun u => str_eqb (User.email u) (SignupInput.email first))
            (rows (table w1))) = 1
  /\ exists w2,
       run (signup jwtSecret second) w1
       = (Abrupt (mkExn PlainError (lit "User already exists")), w2)
       /\ table w2 = table w1.
Proof.
  intros Hrun Hemail.
  destruct (find_unique (SignupInput.email first) (table w)) as [u0|] eqn:Hfind.
  { rewrite (run_signup_existing first w Hfind) in Hrun. discriminate. }
  destruct (run_signup_fresh first w Hfind) as (h & w0 & Htable & Hsame).
  cbv zeta in Htable, Hsame.
  rewrite Hsame in Hrun.
  match type of Hrun with
  | run (generateAuthResponse _ ?u) _ = _ =>
      destruct (run_generateAuthResponse u w0) as (w' & Hgen & Ht' & _)
  end.
  cbv zeta in Hgen. rewrite Hgen in Hrun. injection Hrun as _ Hw. subst w'.
  split.
  - rewrite Ht', Htable. cbn [rows].
    rewrite filter_app, (find_none_filter _ _ Hfind).
    cbn [filter app User.email]. rewrite str_eqb_refl. reflexivity.
  - eexists. split.
    + apply run_signup_existing with (existing :=
        User.mk (sequence (table w) + 1) (SignupInput.email first)
          (Some (SignupInput.name first)) h (SignupInput.role first) false
          (clock w (ticks w)) (clock w (S (ticks w)))).
      rewrite Hemail, Ht', Htable. unfold find_unique. cbn [rows].
      apply find_appended; [exact Hfind|]. apply str_eqb_refl.
    + reflexivity.
Qed.

Lemma run_login_absent (input : LoginInput.t) (w : World) :
  find_unique (LoginInput.email input) (table w) = None ->
  run (login jwtSecret input) w
  = (Abrupt (mkExn PlainError (lit "Invalid email or password")),
     record_call (Called (UserFindUnique (LoginInput.email input))) w).
Proof.
  intros Hnone. unfold login, getUserByEmail.
  rewrite run_bind, run_perform. cbn [handle fst snd].
  cbn [record_call table]. rewrite Hnone. reflexivity.
Qed.

(** After the lookup has found [user], [login] goes by the answer of
    [comparePassword]. *)
Lemma run_login_present (input : LoginInput.t) (w : World) (user : User.t) :
  find_unique (LoginInput.email input) (table w) = Some user ->
  exists b w1,
    fst (run (comparePassword (LoginInput.password input) (User.password_hash user)) w)
    = Normal b
    /\ table w1 = table w
    /\ run (login jwtSecret input) w
       = if b then run (generateAuthResponse jwtSecret user) w1
         else (Abrupt (mkExn PlainError (lit "Invalid email or password")), w1).
Proof.
  intros Hfound. unfold login, getUserByEmail.
  rewrite run_bind, run_perform. cbn [handle fst snd].
  cbn [record_call table]. rewrite Hfound.
  rewrite run_bind.
  match goal with
  | |- context [run (comparePassword ?p ?h) (record_call ?c w)] =>
      destruct (comparePassword_returns p h (record_call c w))
        as (b & w2 & Hcmp & Ht);
      pose proof (comparePassword_outcome p h w (record_call c w)) as Hout
  end.
  rewrite Hcmp. rewrite Hcmp in Hout. cbn [fst] in Hout.
  exists b, w2. split; [exact Hout|]. split; [exact Ht|].
  destruct b; reflexivity.
Qed.

Lemma run_log_in_invalid (data : json) (input : LoginInput.t) (w w' : World) :
  loginSchema_parse data = Normal input ->
  run (login jwtSecret input) w
  = (Abrupt (mkExn PlainError (lit "Invalid email or password")), w') ->
  run (log_in jwtSecret data) w
  = (Normal (mkResponse 401 (ErrorBody (lit "Invalid email or password") None)), w').
Proof.
  intros Hparse Hrun. unfold log_in.
  rewrite run_try_catch, run_bind, run_lift, Hparse.
  rewrite run_try_catch, run_bind, Hrun.
  reflexivity.
Qed.

(** C5.  In any state of the table, a login whose e-mail is not in the table
    and a login whose e-mail is there but whose password fails verification
    throw the same error, [Invalid email or password], and both routes
    answer with the same 401 response. *)
Theorem login_failures_indistinguishable
  (absent present : LoginInput.t) (w : World) (user : User.t) :
  find_unique (LoginInput.email absent) (table w) = None ->
  find_unique (LoginInput.email present) (table w) = Some user ->
  fst (run (comparePassword (LoginInput.password present) (User.password_hash user)) w)
  = Normal false ->
  fst (run (login jwtSecret absent) w)
  = Abrupt (mkExn PlainError (lit "Invalid email or password"))
  /\ fst (run (login jwtSecret present) w) = fst (run (login jwtSecret absent) w)
  /\ forall data_absent data_present,
       loginSchema_parse data_absent = Normal absent ->
       loginSchema_parse data_present = Normal present ->
       fst (run (log_in jwtSecret data_absent) w)
       = Normal (mkResponse 401 (ErrorBody (lit "Invalid email or password") None))
       /\ fst (run (log_in jwtSecret data_present) w)
          = fst (run (log_in jwtSecret data_absent) w).
Proof.
  intros Habsent Hpresent Hwrong.
  pose proof (run_login_absent absent w Habsent) as Ha.
  destruct (run_login_present present w Hpresent) as (b & w1 & Hb & _ & Hp).
  rewrite Hwrong in Hb. injection Hb as <-.
  rewrite Ha, Hp. cbn [fst]. split; [reflexivity|]. split; [reflexivity|].
  intros data_absent data_present Hda Hdp.
  rewrite (@run_log_in_invalid data_absent absent w _ Hda Ha).
  rewrite (@run_log_in_invalid data_present present w _ Hdp Hp).
  split; reflexivity.
Qed.

(** C10.  For a record whose [name] is null, [generateAuthResponse] returns
    normally with the empty string as the name of the user view and as the
    name of the signed payload; so does a login that finds such a record and
    whose password verifies.  The answer of a successful signup carries the
    name of the stored record through the same coercion. *)
Theorem null_name_becomes_empty (user : User.t) (w : World) :
  User.name user = None ->
  (exists resp payload w',
      run (generateAuthResponse jwtSecret user) w = (Normal resp, w')
      /\ UserView.name (AuthResponse.user resp) = []
      /\ JWTPayload.name payload = []
      /\ AuthResponse.accessToken resp = jwt_sign payload jwtSecret
      /\ journal w'
         = journal w ++ [Called DateNow; Called DateNow;
                         Called (JwtSign payload jwtSecret)])
  /\ (forall input,
         find_unique (LoginInput.email input) (table w) = Some user ->
         fst (run (comparePassword (LoginInput.password input)
                     (User.password_hash user)) w) = Normal true ->
         exists resp payload w',
           run (login jwtSecret input) w = (Normal resp, w')
           /\ UserView.name (AuthResponse.user resp) = []
           /\ JWTPayload.name payload = []
           /\ AuthResponse.accessToken resp = jwt_sign payload jwtSecret
           /\ exists calls,
               journal w' = calls ++ [Called (JwtSign payload jwtSecret)])
  /\ (forall input ws resp w',
         run (signup jwtSecret input) ws = (Normal resp, w') ->
         exists stored,
           In stored (rows (table w'))
           /\ UserView.name (AuthResponse.user resp) = or_empty (User.name stored)).
Proof.
  intros Hnull. split; [|split].
  - destruct (run_generateAuthResponse user w) as (w' & Hgen & _ & Hj).
    cbv zeta in Hgen, Hj. rewrite Hnull in Hgen, Hj.
    eexists. eexists. exists w'. split; [exact Hgen|].
    cbn [AuthResponse.user AuthResponse.accessToken UserView.name or_empty].
    split; [reflexivity|]. split; [|split; [reflexivity|exact Hj]].
    reflexivity.
  - intros input Hfound Hok.
    destruct (run_login_present input w Hfound) as (b & w1 & Hb & _ & Hlogin).
    rewrite Hok in Hb. injection Hb as <-.
    destruct (run_generateAuthResponse user w1) as (w' & Hgen & _ & Hj).
    cbv zeta in Hgen, Hj. rewrite Hnull in Hgen, Hj.
    rewrite Hgen in Hlogin.
    eexists. eexists. exists w'. split; [exact Hlogin|].
    cbn [AuthResponse.user AuthResponse.accessToken UserView.name or_empty].
    split; [reflexivity|]. split; [|split; [reflexivity|]].
    + reflexivity.
    + exists (journal w1 ++ [Called DateNow; Called DateNow]).
      rewrite Hj, <- app_assoc. reflexivity.
  - intros input ws resp w' Hrun.
    destruct (find_unique (SignupInput.email input) (table ws)) as [u0|] eqn:Hfind.
    { rewrite (run_signup_existing input ws Hfind) in Hrun. discriminate. }
    destruct (run_signup_fresh input ws Hfind) as (h & w0 & Htable & Hsame).
    cbv zeta in Htable, Hsame. rewrite Hsame in Hrun.
    match type of Hrun with
    | run (generateAuthResponse _ ?u) _ = _ =>
        destruct (run_generateAuthResponse u w0) as (w2 & Hgen & Ht2 & _);
        exists u
    end.
    cbv zeta in Hgen. rewrite Hgen in Hrun. injection Hrun as <- <-.
    split; [|reflexivity].
    rewrite Ht2, Htable. cbn [rows]. apply in_or_app. right. left. reflexivity.
Qed.

(** The lifetime written into a token: [expiresIn] is 86400, [iat] is the
    second of the first reading of the clock and [exp] is the second of the
    second reading plus 86400; they are 86400 apart when both readings fall
    in one second. *)
Lemma token_lifetime (user : User.t) (w : World) :
  exists resp payload w',
    run (generateAuthResponse jwtSecret user) w = (Normal resp, w')
    /\ AuthResponse.expiresIn resp = 86400%Z
    /\ AuthResponse.accessToken resp = jwt_sign payload jwtSecret
    /\ JWTPayload.iat payload = Some (clock w (ticks w) / 1000)%Z
    /\ JWTPayload.exp payload = Some (clock w (S (ticks w)) / 1000 + 86400)%Z
    /\ ((clock w (ticks w) / 1000 = clock w (S (ticks w)) / 1000)%Z ->
        JWTPayload.exp payload = option_map (Z.add 86400) (JWTPayload.iat payload)).
Proof.
  destruct (run_generateAuthResponse user w) as (w' & Hgen & _ & _).
  cbv zeta in Hgen.
  eexists. eexists. exists w'. split; [exact Hgen|].
  cbn [AuthResponse.expiresIn AuthResponse.accessToken JWTPayload.iat
       JWTPayload.exp option_map].
  repeat split.
  intros Hsame. cbn [JWTPayload.iat JWTPayload.exp option_map].
  rewrite Hsame. f_equal. lia.
Qed.

(** A database call lets the next of the other requests go first. *)
Lemma run_among_perform_database (X : Type) (op : Eff X) (f : Table -> Table)
  (others : list (Table -> Table)) (w : World) :
  is_database_call op = true ->
  run_among (f :: others) (perform op) w
  = (Normal (fst (handle op (with_table f w))),
     snd (handle op (with_table f w)), others).
Proof.
  intros H. unfold perform. cbn [run_among]. rewrite H.
  destruct (handle op (with_table f w)); reflexivity.
Qed.

(** C4 (as the code has it).  When the lookup of [signup] finds nothing and
    another request stores a record with the same e-mail before the insert,
    the insert is refused, [signup] throws the error of the database as it
    is, and the route answers 500 with [An unknown error occurred]. *)
Theorem signup_lost_race_is_unknown_error
  (input : SignupInput.t) (w : World) (other : Table -> Table) (taken : User.t) :
  find_unique (SignupInput.email input) (table w) = None ->
  find_unique (SignupInput.email input) (other (table w)) = Some taken ->
  exists w',
    run_among [fun t => t; other] (signup jwtSecret input) w
    = (Abrupt unique_violation, w', [])
    /\ table w' = other (table w)
    /\ forall data,
         signupSchema_parse data = Normal input ->
         run_among [fun t => t; other] (sign_up jwtSecret data) w
         = (Normal (mkResponse 500 (ErrorBody (lit "An unknown error occurred") None)),
            w', []).
Proof.
  intros Hnone Htaken.
  assert (Hrun : exists w',
             run_among [fun t => t; other] (signup jwtSecret input) w
             = (Abrupt unique_violation, w', [])
             /\ table w' = other (table w)).
  { unfold signup, getUserByEmail.
    rewrite run_among_bind, run_among_perform_database by reflexivity.
    cbn [handle fst snd]. cbn [record_call with_table table]. rewrite Hnone.
    cbv iota. rewrite run_among_bind.
    match goal with
    | |- context [run_among ?o (hashPassword ?p) ?w1] =>
        destruct (run_among_hashPassword p o w1) as (h & w2 & Hhash & Ht & _ & _)
    end.
    cbn [record_call with_table table] in Ht.
    rewrite Hhash.
    unfold createUser.
    rewrite !run_among_bind, run_among_perform by reflexivity.
    cbn [handle fst snd].
    rewrite run_among_bind, run_among_perform by reflexivity.
    cbn [handle fst snd].
    rewrite run_among_bind, run_among_perform_database by reflexivity.
    cbn [handle fst snd].
    cbn [record_call table entropy drawn clock ticks journal with_table].
    unfold user_create. cbn [UserCreateArgs.email CreateUserInput.email].
    rewrite Ht. unfold find_unique in Htaken.
    rewrite (find_some_existsb _ _ Htaken).
    rewrite run_among_lift.
    eexists. split; reflexivity. }
  destruct Hrun as (w' & Hrun & Ht).
  exists w'. split; [exact Hrun|]. split; [exact Ht|].
  intros data Hparse. unfold sign_up.
  rewrite run_among_try_catch, run_among_bind, run_among_lift, Hparse.
  rewrite run_among_try_catch, run_among_bind, Hrun.
  reflexivity.
Qed.

End ServiceFacts.

(** ** The sign-up schema *)

Section SchemaFacts.
Context {P : Platform}.

Lemma z_enum_roles (v : option json) :
  z_enum [lit "farmer"; lit "consumer"] v
  = match v with
    | Some (JString s) =>
        if str_eqb s (lit "farmer") || str_eqb s (lit "consumer")
        then Some s else None
    | _ => None
    end.
Proof.
  unfold z_enum. destruct v as [[| | |s| |]|]; try reflexivity.
  cbn [existsb]. rewrite orb_false_r. reflexivity.
Qed.

(** C3 (as the code has it).  On a body whose e-mail, password and name pass
    their checks, the schema accepts the role values [farmer] and
    [consumer], and only them: any other role value, a role that is not a
    string and a missing role are rejected with an issue at [role], which the
    route answers with 400. *)
Theorem signupSchema_accepts_farmer_and_consumer
  (members : list (jsstring * json)) (e p n : jsstring) :
  z_string isEmail (member (lit "email") members) = Some e ->
  z_string (min_length 6) (member (lit "password") members) = Some p ->
  z_string (min_length 1) (member (lit "name") members) = Some n ->
  (forall r,
      member (lit "role") members = Some (JString r) ->
      r = lit "farmer" \/ r = lit "consumer" ->
      signupSchema_parse (JObject members) = Normal (SignupInput.mk e p n r))
  /\ (~ (member (lit "role") members = Some (JString (lit "farmer"))
         \/ member (lit "role") members = Some (JString (lit "consumer"))) ->
      signupSchema_parse (JObject members) = Abrupt (zod_error [lit "role"])
      /\ forall secret w,
           run (sign_up secret (JObject members)) w
           = (Normal (mkResponse 400
                        (ErrorBody (lit "Invalid input") (Some [lit "role"]))), w)).
Proof.
  intros He Hp Hn. split.
  - intros r Hrole Hr. unfold signupSchema_parse. cbv zeta.
    rewrite He, Hp, Hn, z_enum_roles, Hrole.
    replace (str_eqb r (lit "farmer") || str_eqb r (lit "consumer")) with true;
      [reflexivity|].
    symmetry. apply orb_true_iff.
    destruct Hr as [-> | ->]; [left | right]; apply str_eqb_refl.
  - intros Hnot.
    assert (Hparse : signupSchema_parse (JObject members)
                     = Abrupt (zod_error [lit "role"])).
    { unfold signupSchema_parse. cbv zeta.
      rewrite He, Hp, Hn, z_enum_roles.
      destruct (member (lit "role") members) as [[| | |s| |]|]; try reflexivity.
      destruct (str_eqb s (lit "farmer")) eqn:Ef.
      { apply str_eqb_eq in Ef. subst s. exfalso. apply Hnot. left. reflexivity. }
      destruct (str_eqb s (lit "consumer")) eqn:Ec.
      { apply str_eqb_eq in Ec. subst s. exfalso. apply Hnot. right. reflexivity. }
      reflexivity. }
    split; [exact Hparse|].
    intros secret w. unfold sign_up.
    rewrite run_try_catch, run_bind, run_lift, Hparse.
    reflexivity.
Qed.

End SchemaFacts.

(** ** Concrete runs *)

Section ConcreteRuns.
#[local] Existing Instance toy_platform.

(** C1 (as stated) fails.  Against one stored key of 32 bytes, a key that
    differs in the first byte costs one call of the callback and a key that
    differs in the last byte costs 32: the comparison leaves at the first
    difference, and its work depends on where that is. *)
Lemma compare_keys_exits_early :
  snd (compare_keys (repeat x00 32) (x01 :: repeat x00 31)) = 1
  /\ snd (compare_keys (repeat x00 32) (repeat x00 31 ++ [x01])) = 32
  /\ ~ (forall hash new1 new2 : Uint8Array,
          length new1 = length hash -> length new2 = length hash ->
          snd (compare_keys hash new1) = snd (compare_keys hash new2)).
Proof.
  split; [vm_compute; reflexivity|]. split; [vm_compute; reflexivity|].
  intros H.
  specialize (H (repeat x00 32) (x01 :: repeat x00 31) (repeat x00 31 ++ [x01])
                eq_refl eq_refl).
  vm_compute in H. discriminate H.
Qed.

(** Two keys of three bytes that differ in the second: two calls. *)
Lemma compare_keys_stops_at_first_difference_witness :
  length [x01; x02; x03] = length [x01; x07; x03]
  /\ (fst (compare_keys [x01; x02; x03] [x01; x07; x03]) = true
      <-> [x01; x02; x03] = [x01; x07; x03])
  /\ snd (compare_keys [x01; x02; x03] [x01; x07; x03])
     = Nat.min (length [x01; x02; x03])
         (S (common_prefix [x01; x02; x03] [x01; x07; x03])).
Proof.
  split; [reflexivity|].
  apply (@compare_keys_stops_at_first_difference [x01; x02; x03] [x01; x07; x03]).
  reflexivity.
Defined.

(** C3 (as stated) fails.  The schema rejects the role values [producer] and
    [buyer] (the route answers 400) and accepts [farmer]. *)
Lemma signup_rejects_producer_and_buyer :
  signupSchema_parse (signup_body "a@x.com" "producer") = Abrupt (zod_error [lit "role"])
  /\ signupSchema_parse (signup_body "a@x.com" "buyer") = Abrupt (zod_error [lit "role"])
  /\ fst (run (sign_up (lit "k") (signup_body "a@x.com" "producer")) (fresh_world 0))
     = Normal (mkResponse 400 (ErrorBody (lit "Invalid input") (Some [lit "role"])))
  /\ signupSchema_parse (signup_body "a@x.com" "farmer") = Normal alice.
Proof.
  split; [vm_compute; reflexivity|]. split; [vm_compute; reflexivity|].
  split; vm_compute; reflexivity.
Qed.

(** Alice's body is accepted with [farmer] and refused with [grower]. *)
Lemma signupSchema_accepts_farmer_and_consumer_witness :
  signupSchema_parse (signup_body "a@x.com" "farmer") = Normal alice
  /\ signupSchema_parse (signup_body "a@x.com" "grower") = Abrupt (zod_error [lit "role"]).
Proof.
  split.
  - refine (proj1 (@signupSchema_accepts_farmer_and_consumer toy_platform
                     _ (lit "a@x.com") (lit "secret123") (lit "Alice")
                     _ _ _) (lit "farmer") _ _).
    + vm_compute; reflexivity.
    + vm_compute; reflexivity.
    + vm_compute; reflexivity.
    + vm_compute; reflexivity.
    + left; reflexivity.
  - refine (proj1 (proj2 (@signupSchema_accepts_farmer_and_consumer toy_platform
                     _ (lit "a@x.com") (lit "secret123") (lit "Alice")
                     _ _ _) _)).
    + vm_compute; reflexivity.
    + vm_compute; reflexivity.
    + vm_compute; reflexivity.
    + vm_compute. intros [H | H]; discriminate H.
Defined.

(** C4 (as stated) fails.  Alice's signup finds her e-mail free, another
    request takes it before her insert, and the answer is 500, not the 409 of
    a known e-mail. *)
Lemma lost_race_answers_500 :
  fst (fst (run_among [fun t => t; rival_insert] (signup (lit "k") alice)
              (fresh_world 0)))
  = Abrupt unique_violation
  /\ fst (fst (run_among [fun t => t; rival_insert]
                 (sign_up (lit "k") (signup_body "a@x.com" "farmer"))
                 (fresh_world 0)))
     = Normal (mkResponse 500 (ErrorBody (lit "An unknown error occurred") None))
  /\ fst (fst (run_among [fun t => t; rival_insert]
                 (sign_up (lit "k") (signup_body "a@x.com" "farmer"))
                 (fresh_world 0)))
     <> Normal (mkResponse 409 (ErrorBody (lit "User already exists") None)).
Proof.
  split; [vm_compute; reflexivity|]. split; [vm_compute; reflexivity|].
  vm_compute. discriminate.
Qed.

(** The race on Alice's e-mail in a fresh world. *)
Lemma signup_lost_race_is_unknown_error_witness :
  find_unique (SignupInput.email alice) (table (fresh_world 0)) = None
  /\ find_unique (SignupInput.email alice) (rival_insert (table (fresh_world 0)))
     = Some (User.mk 1 (lit "a@x.com") (Some (lit "Rival")) alice_hash
               (lit "consumer") false 0 0)
  /\ exists w',
       run_among [fun t => t; rival_insert] (signup (lit "k") alice) (fresh_world 0)
       = (Abrupt unique_violation, w', [])
       /\ table w' = rival_insert (table (fresh_world 0))
       /\ forall data,
            signupSchema_parse data = Normal alice ->
            run_among [fun t => t; rival_insert] (sign_up (lit "k") data) (fresh_world 0)
            = (Normal (mkResponse 500
                         (ErrorBody (lit "An unknown error occurred") None)),
               w', []).
Proof.
  split; [reflexivity|]. split; [vm_compute; reflexivity|].
  apply (@signup_lost_race_is_unknown_error toy_platform (lit "k") alice
           (fresh_world 0) rival_insert
           (User.mk 1 (lit "a@x.com") (Some (lit "Rival")) alice_hash
              (lit "consumer") false 0 0)).
  - reflexivity.
  - vm_compute; reflexivity.
Defined.

(** An unknown e-mail and Alice's e-mail with a wrong password. *)
Lemma login_failures_indistinguishable_witness :
  let absent := LoginInput.mk (lit "b@x.com") (lit "secret123") in
  let present := LoginInput.mk (lit "a@x.com") (lit "wrongpass") in
  find_unique (LoginInput.email absent) (table world_with_alice) = None
  /\ find_unique (LoginInput.email present) (table world_with_alice) = Some alice_record
  /\ fst (run (login (lit "k") absent) world_with_alice)
     = Abrupt (mkExn PlainError (lit "Invalid email or password"))
  /\ fst (run (login (lit "k") present) world_with_alice)
     = fst (run (login (lit "k") absent) world_with_alice).
Proof.
  intros absent present.
  split; [vm_compute; reflexivity|]. split; [vm_compute; reflexivity|].
  destruct (@login_failures_indistinguishable toy_platform (lit "k") absent present
              world_with_alice alice_record)
    as (H1 & H2 & _).
  - vm_compute; reflexivity.
  - vm_compute; reflexivity.
  - vm_compute; reflexivity.
  - split; [exact H1 | exact H2].
Defined.

(** The toy key derivation returns the requested number of bytes. *)
Lemma toy_key_length (material salt : list byte) :
  length (pbkdf2_sha256 material salt ITERATIONS (HASH_LENGTH * 8)) = HASH_LENGTH.
Proof.
  cbn [pbkdf2_sha256 toy_platform].
  rewrite length_firstn, !length_app, repeat_length.
  change (HASH_LENGTH * 8 / 8) with 32. unfold HASH_LENGTH. lia.
Defined.

(** A stored string with characters outside the base64 alphabet. *)
Lemma comparePassword_false_on_malformed_witness :
  well_formed_hash (lit "not base64!") = false
  /\ exists b w',
       run (comparePassword (lit "secret123") (lit "not base64!")) (fresh_world 0)
       = (Normal b, w')
       /\ (well_formed_hash (lit "not base64!") = false -> b = false).
Proof.
  split; [vm_compute; reflexivity|].
  apply (@comparePassword_false_on_malformed toy_platform (lit "secret123")
           (lit "not base64!") (fresh_world 0)).
  exact toy_key_length.
Defined.

(** Alice signs up a second time. *)
Lemma signup_existing_email_no_mutation_witness :
  find_unique (SignupInput.email alice) (table world_with_alice) = Some alice_record
  /\ exists w',
       run (signup (lit "k") alice) world_with_alice
       = (Abrupt (mkExn PlainError (lit "User already exists")), w')
       /\ table w' = table world_with_alice
       /\ drawn w' = drawn world_with_alice
       /\ journal w'
          = journal world_with_alice
              ++ [Called (UserFindUnique (SignupInput.email alice))]
       /\ forall data,
            signupSchema_parse data = Normal alice ->
            run (sign_up (lit "k") data) world_with_alice
            = (Normal (mkResponse 409 (ErrorBody (lit "User already exists") None)),
               w').
Proof.
  split; [vm_compute; reflexivity|].
  apply (@signup_existing_email_no_mutation toy_platform (lit "k") alice
           world_with_alice alice_record).
  vm_compute; reflexivity.
Defined.

(** C8 (as stated) fails.  After Alice has signed up with [a@x.com], a signup
    with [A@X.COM] is accepted: the route answers 200 and the table holds two
    records whose e-mails differ only in case. *)
Lemma signup_differing_in_case_accepted :
  run (signup (lit "k") alice) (fresh_world 0) = (Normal alice_response, world_with_alice)
  /\ fst (run (sign_up (lit "k") (signup_body "A@X.COM" "farmer")) world_with_alice)
     = Normal (mkResponse 200
                 (AuthBody (AuthResponse.mk (lit "A@X.COM.k") 86400
                              (UserView.mk 2 (lit "A@X.COM") (lit "Alice")
                                 (lit "farmer") false))))
  /\ map User.email
       (rows (table (snd (run (sign_up (lit "k") (signup_body "A@X.COM" "farmer"))
                            world_with_alice))))
     = [lit "a@x.com"; lit "A@X.COM"].
Proof.
  split; [vm_compute; reflexivity|].
  split; vm_compute; reflexivity.
Qed.

(** Alice's first signup succeeds and her second is refused. *)
Lemma signup_same_email_rejected_witness :
  run (signup (lit "k") alice) (fresh_world 0) = (Normal alice_response, world_with_alice)
  /\ length (filter (fun u => str_eqb (User.email u) (SignupInput.email alice))
               (rows (table world_with_alice))) = 1
  /\ exists w2,
       run (signup (lit "k") alice) world_with_alice
       = (Abrupt (mkExn PlainError (lit "User already exists")), w2)
       /\ table w2 = table world_with_alice.
Proof.
  split; [vm_compute; reflexivity|].
  apply (@signup_same_email_rejected toy_platform (lit "k") alice alice
           (fresh_world 0) world_with_alice alice_response).
  - vm_compute; reflexivity.
  - reflexivity.
Defined.

(** C9 on a clock that passes a second between the two readings.  Alice signs
    up in a world whose clock reads 997, 998, 999 and 1000 milliseconds: the
    payload that is signed has [iat] 0 and [exp] 86401, a second more than
    [iat] plus the [expiresIn] of 86400 that the response announces. *)
Lemma expiry_a_second_late :
  AuthResponse.expiresIn
    (match fst (run (signup (lit "k") alice) (fresh_world 997)) with
     | Normal resp => resp
     | Abrupt _ => AuthResponse.mk [] 0 (UserView.mk 0 [] [] [] false)
     end) = 86400%Z
  /\ last (journal (snd (run (signup (lit "k") alice) (fresh_world 997))))
       (Called DateNow)
     = Called (JwtSign
                 (JWTPayload.mk 1 (lit "a@x.com") (lit "Alice") (lit "farmer")
                    (Some 0%Z) (Some 86401%Z))
                 (lit "k")).
Proof. split; vm_compute; reflexivity. Qed.

(** A login that finds a record without a name. *)
Lemma null_name_becomes_empty_witness :
  User.name nameless_record = None
  /\ exists resp payload w',
       run (login (lit "k") (LoginInput.mk (lit "a@x.com") (lit "secret123")))
         world_with_nameless = (Normal resp, w')
       /\ UserView.name (AuthResponse.user resp) = []
       /\ JWTPayload.name payload = []
       /\ AuthResponse.accessToken resp = jwt_sign payload (lit "k")
       /\ exists calls, journal w' = calls ++ [Called (JwtSign payload (lit "k"))].
Proof.
  split; [reflexivity|].
  refine (proj1 (proj2 (@null_name_becomes_empty toy_platform (lit "k")
                          nameless_record world_with_nameless eq_refl))
            (LoginInput.mk (lit "a@x.com") (lit "secret123")) _ _).
  - vm_compute; reflexivity.
  - vm_compute; reflexivity.
Defined.

End ConcreteRuns.

(* ===================================================================== *)
(** * Part III: further properties of the code *)
(* ===================================================================== *)

(** ** utils/password *)

Lemma String_fromCharCode_inj (a b : Uint8Array) :
  String_fromCharCode a = String_fromCharCode b -> a = b.
Proof.
  intros H. rewrite <- (Uint8Array_from_bytes a), <- (Uint8Array_from_bytes b), H.
  reflexivity.
Qed.

(** Different arrays have different base64 texts. *)
Lemma encode_bytes_inj (a b : Uint8Array) :
  Base64.encode (String_fromCharCode a) = Base64.encode (String_fromCharCode b) ->
  a = b.
Proof.
  intros H. apply String_fromCharCode_inj.
  pose proof (atob_btoa_bytes a) as Ha. rewrite H, atob_btoa_bytes in Ha.
  injection Ha as Ha. symmetry. exact Ha.
Qed.

Section HasherMore.
Context {P : Platform}.

(** The run of [hashPassword], call by call. *)
Lemma run_hashPassword_full (password : jsstring) (w : World) :
  let salt := map (entropy w) (seq (drawn w) SALT_LENGTH) in
  let material := TextEncoder_encode password in
  let key := pbkdf2_sha256 material salt ITERATIONS (HASH_LENGTH * 8) in
  run (hashPassword password) w
  = (Normal (Base64.encode (String_fromCharCode (salt ++ key))),
     mkWorld (table w) (entropy w) (drawn w + SALT_LENGTH) (clock w) (ticks w)
       (journal w ++ [Called (GetRandomValues SALT_LENGTH);
                      Called (ImportKey material);
                      Called (DeriveBits salt ITERATIONS (mkCryptoKey material)
                                (HASH_LENGTH * 8))])).
Proof.
  intros salt material key. unfold hashPassword, getPasswordKey.
  rewrite run_bind, run_perform. cbn [handle fst snd].
  rewrite run_bind, run_perform. cbn [handle fst snd].
  rewrite run_bind, run_perform. cbn [handle fst snd key_material].
  cbn [record_call table entropy drawn clock ticks journal].
  fold salt. fold material. fold key.
  destruct (combine_salt_and_key salt key) as [H1 H2].
  rewrite run_bind, run_lift, H1.
  rewrite run_bind, run_lift, H2.
  rewrite run_lift, btoa_bytes.
  unfold record_call. cbn [table entropy drawn clock ticks journal].
  repeat rewrite <- app_assoc. reflexivity.
Qed.

(** Verification against a text of the form [hashPassword] writes: the
    outcome is the comparison of the stored key with the key derived from
    the candidate password and the stored salt. *)
Lemma comparePassword_on_encoded
  (candidate : jsstring) (salt key : Uint8Array) (w : World) :
  length salt = SALT_LENGTH ->
  fst (run (comparePassword candidate
              (Base64.encode (String_fromCharCode (salt ++ key)))) w)
  = Normal (fst (compare_keys key
                   (pbkdf2_sha256 (TextEncoder_encode candidate) salt ITERATIONS
                      (HASH_LENGTH * 8)))).
Proof.
  intros Hlen. rewrite run_comparePassword, atob_btoa_bytes. cbv zeta.
  rewrite Uint8Array_from_bytes.
  destruct (slice_salt salt key Hlen) as [Hs Hk].
  rewrite Hs, Hk. reflexivity.
Qed.

Lemma compare_keys_true_iff (a b : Uint8Array) :
  fst (compare_keys a b) = true <-> a = b.
Proof.
  destruct (Nat.eq_dec (length a) (length b)) as [Hlen|Hlen].
  - rewrite compare_keys_spec by exact Hlen. cbn [fst].
    rewrite Nat.eqb_eq. apply common_prefix_full. exact Hlen.
  - unfold compare_keys. apply Nat.eqb_neq in Hlen. rewrite Hlen. cbn [negb fst].
    split; [discriminate|].
    intros ->. rewrite Nat.eqb_refl in Hlen. discriminate.
Qed.

(** X1.  [hashPassword] always returns; it draws exactly [SALT_LENGTH] bytes
    from the random source and touches neither the table nor the clock; and
    its text decodes, through [atob], to the salt it drew followed by the
    key derived with that salt. *)
Theorem hashPassword_text_is_salt_then_key (password : jsstring) (w : World) :
  exists h w1,
    run (hashPassword password) w = (Normal h, w1)
    /\ drawn w1 = drawn w + SALT_LENGTH
    /\ table w1 = table w
    /\ ticks w1 = ticks w
    /\ exists salt,
         salt = map (entropy w) (seq (drawn w) SALT_LENGTH)
         /\ length salt = SALT_LENGTH
         /\ map_atob_bytes h
            = Some (salt ++ pbkdf2_sha256 (TextEncoder_encode password) salt
                              ITERATIONS (HASH_LENGTH * 8)).
Proof.
  pose proof (run_hashPassword_full password w) as H. cbv zeta in H.
  eexists. eexists. split; [exact H|].
  cbn [drawn table ticks]. repeat split.
  eexists. split; [reflexivity|]. split.
  - rewrite length_map, length_seq. reflexivity.
  - unfold map_atob_bytes. rewrite atob_btoa_bytes, Uint8Array_from_bytes.
    reflexivity.
Qed.

(** X2.  A candidate password verifies against the text [hashPassword]
    wrote for a password exactly when the key derived from the candidate
    with the stored salt is the key derived from the password. *)
Theorem verify_iff_same_derived_key (password candidate : jsstring) (w w2 : World) :
  exists h w1 salt,
    run (hashPassword password) w = (Normal h, w1)
    /\ salt = map (entropy w) (seq (drawn w) SALT_LENGTH)
    /\ (fst (run (comparePassword candidate h) w2) = Normal true
        <-> pbkdf2_sha256 (TextEncoder_encode candidate) salt ITERATIONS
              (HASH_LENGTH * 8)
            = pbkdf2_sha256 (TextEncoder_encode password) salt ITERATIONS
                (HASH_LENGTH * 8))
    /\ (fst (run (comparePassword candidate h) w2) = Normal true
        \/ fst (run (comparePassword candidate h) w2) = Normal false).
Proof.
  pose proof (run_hashPassword_full password w) as H. cbv zeta in H.
  eexists. eexists. eexists. split; [exact H|]. split; [reflexivity|].
  rewrite comparePassword_on_encoded
    by (rewrite length_map, length_seq; reflexivity).
  split.
  - split.
    + intros Heq. injection Heq as Heq. apply compare_keys_true_iff in Heq.
      symmetry. exact Heq.
    + intros Heq. f_equal. apply compare_keys_true_iff. symmetry. exact Heq.
  - destruct (fst (compare_keys _ _)); [left | right]; reflexivity.
Qed.

(** X3.  Two calls of [hashPassword] in a row, for the same password, use
    two consecutive stretches of the random source; when these differ the
    two texts differ, and both verify the password. *)
Theorem hashing_twice_gives_two_texts (password : jsstring) (w : World) :
  map (entropy w) (seq (drawn w) SALT_LENGTH)
  <> map (entropy w) (seq (drawn w + SALT_LENGTH) SALT_LENGTH) ->
  exists h1 w1 h2 w2,
    run (hashPassword password) w = (Normal h1, w1)
    /\ run (hashPassword password) w1 = (Normal h2, w2)
    /\ h1 <> h2
    /\ (forall w', fst (run (comparePassword password h1) w') = Normal true)
    /\ (forall w', fst (run (comparePassword password h2) w') = Normal true).
Proof.
  intros Hsalts.
  pose proof (run_hashPassword_full password w) as H1. cbv zeta in H1.
  eexists. eexists.
  match type of H1 with
  | _ = (_, ?w1) =>
      pose proof (run_hashPassword_full password w1) as H2; cbv zeta in H2
  end.
  cbn [entropy drawn] in H2.
  eexists. eexists. split; [exact H1|]. split; [exact H2|].
  split; [|split].
  - intros Heq. apply encode_bytes_inj in Heq.
    apply (f_equal (firstn SALT_LENGTH)) in Heq.
    rewrite !firstn_app in Heq.
    rewrite !length_map, !length_seq, Nat.sub_diag in Heq.
    cbn [firstn] in Heq. rewrite !app_nil_r in Heq.
    rewrite !firstn_all2 in Heq by (rewrite length_map, length_seq; lia).
    apply Hsalts. exact Heq.
  - intros w'.
    rewrite comparePassword_on_encoded
      by (rewrite length_map, length_seq; reflexivity).
    rewrite compare_keys_same. reflexivity.
  - intros w'.
    rewrite comparePassword_on_encoded
      by (rewrite length_map, length_seq; reflexivity).
    rewrite compare_keys_same. reflexivity.
Qed.

End HasherMore.

(** ** services/user-service and services/auth-service *)

Section ServiceMore.
Context {P : Platform}.
Variable jwtSecret : jsstring.


(** The run of [createUser] on an e-mail the table has. *)
Lemma run_createUser_taken (userData : CreateUserInput.t) (w : World) (taken : User.t) :
  find_unique (CreateUserInput.email userData) (table w) = Some taken ->
  exists w1,
    run (createUser userData) w = (Abrupt unique_violation, w1)
    /\ table w1 = table w
    /\ ticks w1 = S (S (ticks w)).
Proof.
  intros Htaken. unfold createUser.
  rewrite run_bind, run_perform. cbn [handle fst snd].
  rewrite run_bind, run_perform. cbn [handle fst snd].
  rewrite run_bind, run_perform. cbn [handle fst snd].
  unfold record_call, with_table.
  cbn [table entropy drawn clock ticks journal].
  unfold user_create. cbn [UserCreateArgs.email].
  unfold find_unique in Htaken. rewrite (find_some_existsb _ _ Htaken).
  cbn [fst snd]. rewrite run_lift.
  eexists. split; [reflexivity|]. cbn [table ticks].
  split; [destruct (table w)|]; reflexivity.
Qed.


(** X5.  [createUser] on an e-mail the table already has: the insert is
    refused with the unique-constraint error of the database, which
    [createUser] passes on as it is; the table is unchanged. *)
Theorem createUser_taken_email_throws
  (userData : CreateUserInput.t) (w : World) (taken : User.t) :
  find_unique (CreateUserInput.email userData) (table w) = Some taken ->
  exists w1,
    run (createUser userData) w = (Abrupt unique_violation, w1)
    /\ table w1 = table w
    /\ fst (run (getUserByEmail (CreateUserInput.email userData)) w1)
       = Normal (Some taken).
Proof.
  intros Htaken.
  destruct (run_createUser_taken userData w Htaken) as (w1 & Hrun & Ht & _).
  exists w1. split; [exact Hrun|]. split; [exact Ht|].
  unfold getUserByEmail. rewrite run_perform. cbn [handle fst].
  unfold record_call. cbn [table]. rewrite Ht, Htaken. reflexivity.
Qed.





(** X8.  [login] never writes: whatever the input and the outcome, the
    table after the run is the table before it. *)
Theorem login_never_writes (input : LoginInput.t) (w : World) :
  table (snd (run (login jwtSecret input) w)) = table w.
Proof.
  destruct (find_unique (LoginInput.email input) (table w)) as [user|] eqn:Hfind.
  - destruct (run_login_present jwtSecret input w Hfind)
      as (b & w1 & _ & Ht & Hlogin).
    rewrite Hlogin. destruct b; [|exact Ht].
    destruct (run_generateAuthResponse jwtSecret user w1) as (w2 & Hgen & Ht2 & _).
    cbv zeta in Hgen. rewrite Hgen. cbn [snd]. rewrite Ht2. exact Ht.
  - rewrite (run_login_absent jwtSecret input w Hfind). reflexivity.
Qed.

(** X9.  [login] returns a response exactly when the lookup finds a record
    and [comparePassword] answers [true] for its hash; every other run ends
    in the one error [Invalid email or password]. *)
Theorem login_succeeds_iff (input : LoginInput.t) (w : World) :
  ((exists resp w', run (login jwtSecret input) w = (Normal resp, w'))
   <-> exists user,
         find_unique (LoginInput.email input) (table w) = Some user
         /\ fst (run (comparePassword (LoginInput.password input)
                        (User.password_hash user)) w) = Normal true)
  /\ forall e w',
       run (login jwtSecret input) w = (Abrupt e, w') ->
       e = mkExn PlainError (lit "Invalid email or password").
Proof.
  destruct (find_unique (LoginInput.email input) (table w)) as [user|] eqn:Hfind.
  - destruct (run_login_present jwtSecret input w Hfind)
      as (b & w1 & Hb & _ & Hlogin).
    destruct (run_generateAuthResponse jwtSecret user w1) as (w2 & Hgen & _).
    cbv zeta in Hgen.
    rewrite Hlogin. destruct b.
    + rewrite Hgen. split.
      * split; [intros _; exists user; split; [reflexivity | exact Hb]|].
        intros _. eexists. eexists. reflexivity.
      * intros e w' H. discriminate H.
    + split.
      * split; [intros (resp & w' & H); discriminate H|].
        intros (user' & Hu & Hok). injection Hu as <-.
        rewrite Hok in Hb. discriminate Hb.
      * intros e w' H. injection H as <- _. reflexivity.
  - rewrite (run_login_absent jwtSecret input w Hfind). split.
    + split; [intros (resp & w' & H); discriminate H|].
      intros (user & Hu & _). discriminate Hu.
    + intros e w' H. injection H as <- _. reflexivity.
Qed.

(** X10.  When the clock does not go back between the two readings of
    [generateAuthResponse], the token it signs does not expire before the
    [expiresIn] it announces: [exp] is at least [iat] plus 86400. *)
Theorem token_lives_as_long_as_announced (user : User.t) (w : World) :
  (clock w (ticks w) <= clock w (S (ticks w)))%Z ->
  exists resp payload w' issued expires,
    run (generateAuthResponse jwtSecret user) w = (Normal resp, w')
    /\ AuthResponse.accessToken resp = jwt_sign payload jwtSecret
    /\ JWTPayload.iat payload = Some issued
    /\ JWTPayload.exp payload = Some expires
    /\ (issued + AuthResponse.expiresIn resp <= expires)%Z.
Proof.
  intros Hclock.
  destruct (run_generateAuthResponse jwtSecret user w) as (w' & Hgen & _).
  cbv zeta in Hgen.
  eexists. eexists. exists w'. eexists. eexists. split; [exact Hgen|].
  cbn [AuthResponse.accessToken AuthResponse.expiresIn].
  split; [reflexivity|]. cbn [JWTPayload.iat JWTPayload.exp].
  split; [reflexivity|]. split; [reflexivity|].
  pose proof (Z.div_le_mono _ _ 1000 ltac:(lia) Hclock). lia.
Qed.

End ServiceMore.

(** ** routes/auth *)

Section RoutesMore.
Context {P : Platform}.
Variable JWT_SECRET : jsstring.





Lemma outer_catch_answers (p : Prog Response)
  (others : list (Table -> Table)) (w : World) :
  exists r w' rest,
    run_among others (try_catch p outer_catch) w = (Normal r, w', rest).
Proof.
  rewrite run_among_try_catch.
  destruct (run_among others p w) as [[[r|e] w'] rest].
  - eexists. eexists. eexists. reflexivity.
  - unfold outer_catch. destruct (exn_class e);
      eexists; eexists; eexists; reflexivity.
Qed.

(** X13.  Neither route lets an exception out, whatever other requests do to
    the table in between: every run ends with a response. *)
Theorem routes_always_answer (data : json)
  (others : list (Table -> Table)) (w : World) :
  (exists r w' rest,
      run_among others (sign_up JWT_SECRET data) w = (Normal r, w', rest))
  /\ (exists r w' rest,
         run_among others (log_in JWT_SECRET data) w = (Normal r, w', rest)).
Proof. split; apply outer_catch_answers. Qed.

End RoutesMore.

(** ** The [User] table *)



Section TableFacts.
Context {P : Platform}.



End TableFacts.

(** ** The schemas *)

Lemma z_string_some (check : jsstring -> bool) (v : option json) (s : jsstring) :
  z_string check v = Some s <-> v = Some (JString s) /\ check s = true.
Proof.
  unfold z_string. destruct v as [[| | |s'| |]|]; try (split; [discriminate|]);
    try (intros [H _]; discriminate H).
  destruct (check s') eqn:Hc.
  - split.
    + intros H. injection H as <-. split; [reflexivity | exact Hc].
    + intros [H _]. injection H as <-. reflexivity.
  - split; [discriminate|]. intros [H Hs]. injection H as <-.
    rewrite Hs in Hc. discriminate Hc.
Qed.

Section SchemaMore.
Context {P : Platform}.

(** X15.  [signupSchema] accepts a body exactly when it is an object whose
    [email] is a string that passes the e-mail test, whose [password] is a
    string of at least 6 code units, whose [name] is a non-empty string and
    whose [role] is the string [farmer] or [consumer]; the input handed on
    consists of these four strings (other members are dropped). *)
Theorem signupSchema_accepts_iff (data : json) (input : SignupInput.t) :
  signupSchema_parse data = Normal input
  <-> exists members,
        data = JObject members
        /\ member (lit "email") members = Some (JString (SignupInput.email input))
        /\ isEmail (SignupInput.email input) = true
        /\ member (lit "password") members
           = Some (JString (SignupInput.password input))
        /\ 6 <= length (SignupInput.password input)
        /\ member (lit "name") members = Some (JString (SignupInput.name input))
        /\ 1 <= length (SignupInput.name input)
        /\ member (lit "role") members = Some (JString (SignupInput.role input))
        /\ (SignupInput.role input = lit "farmer"
            \/ SignupInput.role input = lit "consumer").
Proof.
  split.
  - unfold signupSchema_parse. destruct data as [| | | | |members];
      try discriminate.
    cbv zeta. rewrite z_enum_roles.
    destruct (z_string isEmail _) as [e|] eqn:He;
      destruct (z_string (min_length 6) _) as [p|] eqn:Hp;
      destruct (z_string (min_length 1) _) as [n|] eqn:Hn;
      destruct (member (lit "role") members) as [[| | |r| |]|] eqn:Hr;
      try discriminate.
    destruct (str_eqb r (lit "farmer") || str_eqb r (lit "consumer")) eqn:Hrole;
      [|discriminate].
    intros H. injection H as <-.
    cbn [SignupInput.email SignupInput.password SignupInput.name SignupInput.role].
    apply z_string_some in He, Hp, Hn.
    destruct He as [He1 He2], Hp as [Hp1 Hp2], Hn as [Hn1 Hn2].
    unfold min_length in Hp2, Hn2. apply Nat.leb_le in Hp2, Hn2.
    exists members. repeat (split; [assumption || reflexivity|]).
    apply orb_true_iff in Hrole.
    destruct Hrole as [H|H]; apply str_eqb_eq in H; [left | right]; exact H.
  - intros (members & -> & He & He' & Hp & Hp' & Hn & Hn' & Hr & Hrole).
    unfold signupSchema_parse. cbv zeta.
    rewrite (proj2 (z_string_some isEmail _ _) (conj He He')).
    rewrite (proj2 (z_string_some (min_length 6) _ _)
               (conj Hp (proj2 (Nat.leb_le _ _) Hp'))).
    rewrite (proj2 (z_string_some (min_length 1) _ _)
               (conj Hn (proj2 (Nat.leb_le _ _) Hn'))).
    rewrite z_enum_roles, Hr.
    replace (str_eqb (SignupInput.role input) (lit "farmer")
             || str_eqb (SignupInput.role input) (lit "consumer")) with true.
    + destruct input; reflexivity.
    + symmetry. apply orb_true_iff.
      destruct Hrole as [H|H]; rewrite H; [left | right]; apply str_eqb_refl.
Qed.

(** X16.  [loginSchema] accepts a body exactly when it is an object whose
    [email] is a string that passes the e-mail test and whose [password] is
    a string; it puts no bound on the length of the password, the empty
    password included. *)
Theorem loginSchema_accepts_iff (data : json) (input : LoginInput.t) :
  loginSchema_parse data = Normal input
  <-> exists members,
        data = JObject members
        /\ member (lit "email") members = Some (JString (LoginInput.email input))
        /\ isEmail (LoginInput.email input) = true
        /\ member (lit "password") members
           = Some (JString (LoginInput.password input)).
Proof.
  split.
  - unfold loginSchema_parse. destruct data as [| | | | |members];
      try discriminate.
    cbv zeta.
    destruct (z_string isEmail _) as [e|] eqn:He;
      destruct (z_string (fun _ => true) _) as [p|] eqn:Hp;
      try discriminate.
    intros H. injection H as <-. cbn [LoginInput.email LoginInput.password].
    apply z_string_some in He, Hp.
    destruct He as [He1 He2], Hp as [Hp1 _].
    exists members. repeat (split; [assumption || reflexivity|]). exact Hp1.
  - intros (members & -> & He & He' & Hp).
    unfold loginSchema_parse. cbv zeta.
    rewrite (proj2 (z_string_some isEmail _ _) (conj He He')).
    rewrite (proj2 (z_string_some (fun _ => true) _ _) (conj Hp eq_refl)).
    destruct input; reflexivity.
Qed.

End SchemaMore.

(** ** utils/prisma *)

Module PrismaFacts.
Import Prisma.

(** X17.  [getPrismaClient] keeps the first client: a second call returns
    the very object the first call returned and constructs nothing, whatever
    database it is given; when no client was set, that object is bound to
    the database of the first call and logs queries, errors and warnings. *)
Theorem first_client_is_kept (d1 d2 : option D1Database) (s : State) :
  getPrismaClient d2 (snd (getPrismaClient d1 s))
  = (fst (getPrismaClient d1 s), snd (getPrismaClient d1 s))
  /\ (prisma s = None ->
      adapter (fst (getPrismaClient d1 s)) = d1
      /\ log (fst (getPrismaClient d1 s)) = ["query"; "error"; "warn"]%string
      /\ constructed (snd (getPrismaClient d1 s)) = S (constructed s)).
Proof.
  unfold getPrismaClient. destruct (prisma s) as [c|] eqn:Hs; cbn [fst snd].
  - rewrite Hs. split; [reflexivity|]. discriminate.
  - cbn [prisma]. split; [reflexivity|]. intros _.
    destruct d1; repeat split.
Qed.

Lemma reachable_bounds (s : State) :
  reachable s ->
  (forall c, prisma s = Some c -> ident c < constructed s)
  /\ Forall (fun i => i < constructed s) (disconnected s)
  /\ (forall c, prisma s = Some c -> ~ In (ident c) (disconnected s)).
Proof.
  induction 1 as [| d s _ IH | o s _ IH | d s _ IH].
  - cbn. repeat split; [discriminate | constructor | discriminate].
  - destruct IH as (Hc & Hd & Hn). unfold getPrismaClient.
    destruct (prisma s) as [c|] eqn:Hs; cbn [snd].
    + rewrite Hs. repeat split; assumption.
    + cbn [prisma constructed disconnected]. split; [|split].
      * intros c H. injection H as <-. destruct d; cbn [ident]; lia.
      * eapply Forall_impl; [|exact Hd]. intros i Hi. cbv beta in *. lia.
      * intros c H. injection H as <-. intros Hin.
        rewrite Forall_forall in Hd. specialize (Hd _ Hin).
        destruct d; cbn [ident] in Hd; lia.
  - destruct IH as (Hc & Hd & Hn). unfold disconnectPrisma.
    destruct (prisma s) as [c|] eqn:Hs; [destruct o as [u|e]|]; cbn [snd].
    + cbn [prisma constructed disconnected]. split; [discriminate|]. split.
      * constructor; [apply Hc; reflexivity | exact Hd].
      * discriminate.
    + rewrite Hs. repeat split; assumption.
    + rewrite Hs. repeat split; assumption.
  - destruct IH as (Hc & Hd & Hn). unfold getNewPrismaClient. cbn [snd].
    cbn [prisma constructed disconnected]. split; [|split].
    + intros c H. specialize (Hc c H). lia.
    + eapply Forall_impl; [|exact Hd]. intros i Hi. cbv beta in *. lia.
    + exact Hn.
Qed.


(** X19.  When [$disconnect] completes, [disconnectPrisma] clears the
    module variable, and the next [getPrismaClient] constructs a new client,
    bound to the database it is given and different from the one
    disconnected; when [$disconnect] rejects, the error goes to the caller
    and the old client stays in place; with no client set,
    [disconnectPrisma] does nothing. *)
Theorem disconnect_then_get (d : option D1Database) (s : State) (old : PrismaClient) :
  reachable s ->
  prisma s = Some old ->
  (let s1 := snd (disconnectPrisma (Normal tt) s) in
   let c := fst (getPrismaClient d s1) in
   fst (disconnectPrisma (Normal tt) s) = Normal tt
   /\ prisma s1 = None
   /\ In (ident old) (disconnected s1)
   /\ adapter c = d
   /\ ident c <> ident old
   /\ disconnectPrisma (Normal tt) s1 = (Normal tt, s1))
  /\ (forall e,
         disconnectPrisma (Abrupt e) s = (Abrupt e, s)
         /\ fst (getPrismaClient d s) = old).
Proof.
  intros Hs Hold.
  destruct (reachable_bounds Hs) as (Hc & _ & _). specialize (Hc old Hold).
  unfold disconnectPrisma, getPrismaClient. rewrite Hold. cbn [fst snd prisma].
  split.
  - cbn [constructed disconnected].
    split; [reflexivity|]. split; [reflexivity|].
    split; [left; reflexivity|].
    split; [destruct d; reflexivity|].
    split; [destruct d; cbn [ident]; lia | reflexivity].
  - intros e. split; reflexivity.
Qed.

End PrismaFacts.

(** ** Concrete runs of the further properties *)

Section MoreConcreteRuns.
#[local] Existing Instance toy_platform.

(** In a fresh world the first sixteen random bytes are 0 to 15 and the next
    sixteen are 16 to 31. *)
Lemma hashing_twice_gives_two_texts_witness :
  map (entropy (fresh_world 0)) (seq (drawn (fresh_world 0)) SALT_LENGTH)
  <> map (entropy (fresh_world 0))
       (seq (drawn (fresh_world 0) + SALT_LENGTH) SALT_LENGTH)
  /\ exists h1 w1 h2 w2,
       run (hashPassword (lit "secret123")) (fresh_world 0) = (Normal h1, w1)
       /\ run (hashPassword (lit "secret123")) w1 = (Normal h2, w2)
       /\ h1 <> h2
       /\ (forall w', fst (run (comparePassword (lit "secret123") h1) w') = Normal true)
       /\ (forall w', fst (run (comparePassword (lit "secret123") h2) w') = Normal true).
Proof.
  assert (H : map (entropy (fresh_world 0)) (seq (drawn (fresh_world 0)) SALT_LENGTH)
              <> map (entropy (fresh_world 0))
                   (seq (drawn (fresh_world 0) + SALT_LENGTH) SALT_LENGTH))
    by (vm_compute; discriminate).
  split; [exact H|].
  exact (@hashing_twice_gives_two_texts toy_platform (lit "secret123")
           (fresh_world 0) H).
Defined.


(** A second record with Alice's e-mail is refused. *)
Lemma createUser_taken_email_throws_witness :
  let again := CreateUserInput.mk (lit "a@x.com") (lit "hash") (lit "Alice 2")
                 (lit "consumer") None in
  find_unique (CreateUserInput.email again) (table world_with_alice) = Some alice_record
  /\ exists w1,
       run (createUser again) world_with_alice = (Abrupt unique_violation, w1)
       /\ table w1 = table world_with_alice
       /\ fst (run (getUserByEmail (CreateUserInput.email again)) w1)
          = Normal (Some alice_record).
Proof.
  intros again.
  assert (H : find_unique (CreateUserInput.email again) (table world_with_alice)
              = Some alice_record)
    by (vm_compute; reflexivity).
  split; [exact H|].
  exact (@createUser_taken_email_throws toy_platform again world_with_alice
           alice_record H).
Defined.



(** A clock that gains a millisecond per reading does not go back. *)
Lemma token_lives_as_long_as_announced_witness :
  (clock (fresh_world 999) (ticks (fresh_world 999))
   <= clock (fresh_world 999) (S (ticks (fresh_world 999))))%Z
  /\ exists resp payload w' issued expires,
       run (generateAuthResponse (lit "k") alice_record) (fresh_world 999)
       = (Normal resp, w')
       /\ AuthResponse.accessToken resp = jwt_sign payload (lit "k")
       /\ JWTPayload.iat payload = Some issued
       /\ JWTPayload.exp payload = Some expires
       /\ (issued + AuthResponse.expiresIn resp <= expires)%Z.
Proof.
  assert (H : (clock (fresh_world 999) (ticks (fresh_world 999))
               <= clock (fresh_world 999) (S (ticks (fresh_world 999))))%Z)
    by (vm_compute; discriminate).
  split; [exact H|].
  exact (@token_lives_as_long_as_announced toy_platform (lit "k") alice_record
           (fresh_world 999) H).
Defined.



(** Disconnecting the client of database 7 and asking for database 8. *)
Lemma disconnect_then_get_witness :
  let s := snd (Prisma.getPrismaClient (Some 7) Prisma.initial) in
  let old := Prisma.mkClient 0 (Some 7) ["query"; "error"; "warn"]%string in
  Prisma.reachable s
  /\ Prisma.prisma s = Some old
  /\ Prisma.adapter
       (fst (Prisma.getPrismaClient (Some 8)
               (snd (Prisma.disconnectPrisma (Normal tt) s)))) = Some 8
  /\ Prisma.ident
       (fst (Prisma.getPrismaClient (Some 8)
               (snd (Prisma.disconnectPrisma (Normal tt) s)))) <> Prisma.ident old.
Proof.
  intros s old.
  assert (H : Prisma.reachable s)
    by (apply Prisma.reach_get, Prisma.reach_initial).
  split; [exact H|]. split; [reflexivity|].
  destruct (@PrismaFacts.disconnect_then_get (Some 8) s old H eq_refl)
    as ((_ & _ & _ & Ha & Hi & _) & _).
  split; [exact Ha | exact Hi].
Defined.

End MoreConcreteRuns.
